(** * Beam verification engine (EC2): a shallow embedding of the calculation
  classes and the properties checked against them.

  Python floats are idealised: modules that only add, multiply, divide and
  compare are modelled over the rationals [Q] (so that every function can
  be evaluated), modules that take square roots or fractional powers are
  modelled over the reals [R].  Division is total in both models; every
  theorem that divides carries the hypotheses under which the Python
  division is defined.

  Where a property turns on the rounding itself (the deflection limit, the
  two formulas of the compression-zone factor at the balanced area), the
  function is given on binary64, the format of a Python float, with the
  primitive floats of the kernel: every operation rounds to nearest, ties
  to even, as the hardware does. *)

From Stdlib Require Import Floats.
From Stdlib Require Import QArith Qminmax Qabs Qpower Reals Psatz List String Bool ZArith.
Import ListNotations.

#[local] Set Warnings "-inexact-float".

(** ** Python outcomes *)

Module Py.

(** The exceptions the modelled code can raise. *)
Inductive exn : Type :=
| ValueError
| UnboundLocalError
| TypeError.

(** A call either returns a value or raises. *)
Inductive outcome (A : Type) : Type :=
| Returns (a : A)
| Raises (e : exn).

Arguments Returns {A} a.
Arguments Raises {A} e.

Definition bind {A B : Type} (m : outcome A) (k : A -> outcome B) : outcome B :=
  match m with
  | Returns a => k a
  | Raises e => Raises e
  end.

Definition completes {A : Type} (m : outcome A) : Prop :=
  exists a, m = Returns a.

(** Membership [x in l] for a list of strings. *)
Definition str_in (x : string) (l : list string) : bool :=
  existsb (String.eqb x) l.

(** Strict comparison on rationals. *)
Definition Qlt_bool (x y : Q) : bool := negb (Qle_bool y x).

End Py.

Import Py.

Notation "x <- m ;; k" := (bind m (fun x => k))
(at level 61, m at next level, right associativity).

(** ** Binary64 *)

Module Binary64.

(** The rational number a finite binary64 value stands for; [None] for
    infinities and NaN. *)
Definition exact_value (x : float) : option Q :=
  match Prim2SF x with
  | S754_zero _ => Some 0%Q
  | S754_finite s m e =>
      Some ((if s then -1 else 1) * inject_Z (Zpos m) * 2 ^ e)%Q
  | _ => None
  end.

(** Python's [max(x, y)] keeps [x] unless [y > x]. *)
Definition max (x y : float) : float :=
  if (x <? y)%float then y else x.

End Binary64.

(** ** B0_Cross_section.py *)

Module Cross_section.

Open Scope Q_scope.
Open Scope string_scope.

(** [max(bar_diameter, 10)] *)
Definition get_c_min_b (bar_diameter : Q) : Q :=
  Qmax bar_diameter 10.

Definition get_c_min_dur (exposure_class : string) (c_min_b : Q) : outcome Q :=
  if String.eqb exposure_class "X0" then Returns c_min_b
  else if String.eqb exposure_class "XC1" then Returns 15
  else if str_in exposure_class ["XC2"; "XC3"; "XC4"] then Returns 25
  else if str_in exposure_class ["XD1"; "XS1"; "XD2"; "XD3"; "XS2"] then Returns 40
  else if String.eqb exposure_class "XS3" then Returns 50
  else Raises ValueError.

Definition calculate_cnom (c_min_b c_min_dur : Q) : Q :=
  let c_min := Qmax (Qmax c_min_b c_min_dur) 10 in
  let delta_c_dev := 10 in
  c_min + delta_c_dev.

(** The part of [__init__] that derives the cover from the inputs. *)
Record cover : Type := mk_cover {
  c_min_b : Q;
  c_min_dur : Q;
  cnom : Q
}.

Definition init_cover (bar_diameter : Q) (exposure_class : string) : outcome cover :=
  let cb := get_c_min_b bar_diameter in
  cd <- get_c_min_dur exposure_class cb ;;
  Returns (mk_cover cb cd (calculate_cnom cb cd)).

(** The exposure classes the cover table recognises. *)
Definition recognized : list string :=
  ["X0"; "XC1"; "XC2"; "XC3"; "XC4"; "XD1"; "XS1"; "XD2"; "XD3"; "XS2"; "XS3"].

(** The fixed minimum of the four groups whose value is a constant. *)
Definition group_minimum (exposure_class : string) : option Q :=
  if String.eqb exposure_class "XC1" then Some 15
  else if str_in exposure_class ["XC2"; "XC3"; "XC4"] then Some 25
  else if str_in exposure_class ["XD1"; "XS1"; "XD2"; "XD3"; "XS2"] then Some 40
  else if String.eqb exposure_class "XS3" then Some 50
  else None.



Definition calculate_Ap (nr_prestressed_bars Ap_strand : Q) : Q :=
  nr_prestressed_bars * Ap_strand.

End Cross_section.

(** ** B0_Material.py: the prestress strand table *)

Module Material.

Open Scope Q_scope.
Open Scope string_scope.

Definition gamma_prestressed_reinforcement : Q := 1.15.

(** A [match] on the diameter with literal cases: the first case equal to
    the subject returns its index, falling off the end returns [None]. *)
Fixpoint match_diameter (prestress_diameter : Q) (cases : list (Q * nat)) : option nat :=
  match cases with
  | [] => None
  | (lit, idx) :: rest =>
      if Qeq_bool prestress_diameter lit then Some idx
      else match_diameter prestress_diameter rest
  end.

Fixpoint match_name (prestress_name : string) (cases : list (string * nat)) : option nat :=
  match cases with
  | [] => None
  | (lit, idx) :: rest =>
      if String.eqb prestress_name lit then Some idx
      else match_name prestress_name rest
  end.

Definition cases_Y1860S3 : list (Q * nat) :=
  [(6.5, 1%nat); (6.8, 2%nat); (7.5, 3%nat)].

Definition cases_Y1860S7 : list (Q * nat) :=
  [(7.0, 4%nat); (9.0, 5%nat); (11.0, 6%nat); (12.5, 7%nat); (13.0, 8%nat);
   (15.2, 9%nat); (16.0, 10%nat)].

Definition cases_Y1770S7 : list (Q * nat) :=
  [(15.2, 11%nat); (16.0, 12%nat); (18.0, 13%nat)].

Definition cases_other : list (string * nat) :=
  [("Y19060S3", 0%nat); ("Y1860S7G", 14%nat); ("Y1820S7G", 15%nat);
   ("Y1700S7G", 16%nat); ("Y2160S3", 17%nat); ("Y2060S3", 18%nat);
   ("Y1960S3", 19%nat); ("Y2160S7", 20%nat); ("Y2060S7", 21%nat);
   ("Y1960S7", 22%nat)].

(** The name is [None] when the beam is not prestressed. *)
Definition get_index_prestress (prestress_name : option string)
    (prestress_diameter : Q) : option nat :=
  match prestress_name with
  | Some name =>
      if String.eqb name "Y1860S3" then match_diameter prestress_diameter cases_Y1860S3
      else if String.eqb name "Y1860S7" then match_diameter prestress_diameter cases_Y1860S7
      else if String.eqb name "Y1770S7" then match_diameter prestress_diameter cases_Y1770S7
      else match_name name cases_other
  | None => None
  end.

Definition fpk_table : list Q :=
  [1960; 1860; 1860; 1860; 1860; 1860; 1860; 1860; 1860; 1860; 1860; 1770;
   1770; 1770; 1860; 1820; 1700; 2160; 2060; 1960; 2160; 2060; 1960].

Definition Ap_table : list Q :=
  [13.6; 21.1; 23.4; 20; 30; 50; 75; 93; 100;
   140; 150; 140; 150; 200; 112; 165; 223; 13.6; 13.6; 21.2; 28.2; 30; 50].

Definition Fpk_table : list Q :=
  [26.6; 39.2; 43.5; 54; 56; 93; 140; 173; 186; 260; 279; 248; 265; 354; 209; 300;
   380; 29.4; 28; 41.4; 60.9; 62; 98].

Definition Fp01k_table : list Q :=
  [22.9; 33.8; 37.4; 46.4; 48; 80; 120; 149; 160; 224; 240; 213; 228; 304; 180; 258;
   327; 26.2; 24.1; 35.6; 52.4; 53; 84].

Definition get_fpk (index_prestress : option nat) : Q :=
  match index_prestress with
  | None => 0
  | Some i => nth i fpk_table 0
  end.

Definition get_Ap (index_prestress : option nat) : Q :=
  match index_prestress with
  | None => 0
  | Some i => nth i Ap_table 0
  end.

Definition get_Fpk (index_prestress : option nat) : Q :=
  match index_prestress with
  | None => 0
  | Some i => nth i Fpk_table 0
  end.

Definition get_Fp01k (index_prestress : option nat) : Q :=
  match index_prestress with
  | None => 0
  | Some i => nth i Fp01k_table 0
  end.

Definition calculate_fp01k (Fp01k Ap : Q) (index_prestress : option nat) : Q :=
  match index_prestress with
  | None => 0
  | Some _ => Fp01k * 10 ^ 3 / Ap
  end.

Definition calculate_fpd (fp01k : Q) (index_prestress : option nat) : Q :=
  match index_prestress with
  | None => 0
  | Some _ => fp01k / gamma_prestressed_reinforcement
  end.

(** The prestress attributes set by [__init__]. *)
Record prestress : Type := mk_prestress {
  index_prestress : option nat;
  fpk : Q;
  Ap_strand : Q;
  Fpk : Q;
  Fp01k : Q;
  fp01k : Q;
  fpd : Q
}.

Definition init_prestress (prestress_name : option string)
    (prestress_diameter : Q) : prestress :=
  let index_prestress := get_index_prestress prestress_name prestress_diameter in
  let fpk := get_fpk index_prestress in
  let Ap_strand := get_Ap index_prestress in
  let Fpk := get_Fpk index_prestress in
  let Fp01k := get_Fp01k index_prestress in
  let fp01k := calculate_fp01k Fp01k Ap_strand index_prestress in
  let fpd := calculate_fpd fp01k index_prestress in
  mk_prestress index_prestress fpk Ap_strand Fpk Fp01k fp01k fpd.

(** The diameters the table lists under a name; [None] for a name whose
    index does not depend on the diameter or that is not in the table. *)
Definition listed_diameters (name : string) : option (list Q) :=
  if String.eqb name "Y1860S3" then Some (map fst cases_Y1860S3)
  else if String.eqb name "Y1860S7" then Some (map fst cases_Y1860S7)
  else if String.eqb name "Y1770S7" then Some (map fst cases_Y1770S7)
  else None.

(** Every name the table knows. *)
Definition recognized_names : list string :=
  ["Y1860S3"; "Y1860S7"; "Y1770S7"] ++ map fst cases_other.

(** *** Concrete parameters *)

Definition gamma_selfload : Q := 1.2.
Definition gamma_liveload : Q := 1.5.
Definition gamma_concrete : Q := 1.5.
Definition alfa_cc : Q := 0.85.
Definition alfa_ct : Q := 0.85.

Definition cases_concrete : list (string * nat) :=
  [("C12", 0%nat); ("C16", 1%nat); ("C20", 2%nat); ("C25", 3%nat); ("C30", 4%nat);
   ("C35", 5%nat); ("C40", 6%nat); ("C45", 7%nat); ("C50", 8%nat); ("C55", 9%nat);
   ("C60", 10%nat); ("C70", 11%nat); ("C80", 12%nat); ("C90", 13%nat)].

(** The [match] ends in [case _: raise ValueError]. *)
Definition get_index (concrete_class : string) : outcome nat :=
  match match_name concrete_class cases_concrete with
  | Some index => Returns index
  | None => Raises ValueError
  end.

Definition fck_vektor : list Q := [12; 16; 20; 25; 30; 35; 40; 45; 50; 55; 60; 70; 80; 90].
Definition fck_cube_vektor : list Q := [15; 20; 25; 30; 37; 45; 50; 55; 60; 67; 75; 85; 95; 105].
Definition fcm_vektor : list Q := [20; 24; 28; 33; 38; 43; 48; 53; 58; 63; 68; 78; 88; 98].
Definition fctm_vektor : list Q :=
  [1.6; 1.9; 2.2; 2.6; 2.9; 3.2; 3.5; 3.8; 4.1; 4.2; 4.4; 4.6; 4.8; 5.0].
Definition fctk_005_vektor : list Q :=
  [1.1; 1.3; 1.5; 1.8; 2.0; 2.2; 2.5; 2.7; 2.9; 3.0; 3.1; 3.2; 3.4; 3.5].
Definition fctk_095_vektor : list Q :=
  [2.0; 2.5; 2.9; 3.3; 3.8; 4.2; 4.6; 4.9; 5.3; 5.5; 5.7; 6.0; 6.3; 6.6].
Definition Ecm_vektor : list Q := [27; 29; 30; 31; 33; 34; 35; 36; 37; 38; 39; 41; 42; 44].
Definition eps_cu3_vektor : list Q :=
  [3.5; 3.5; 3.5; 3.5; 3.5; 3.5; 3.5; 3.5; 3.5; 3.1; 2.9; 2.7; 2.6; 2.6].

Definition get_fck (index : nat) : Q := nth index fck_vektor 0.
Definition get_fck_cube (index : nat) : Q := nth index fck_cube_vektor 0.
Definition get_fcm (index : nat) : Q := nth index fcm_vektor 0.
Definition get_fctm (index : nat) : Q := nth index fctm_vektor 0.
Definition get_fctk_005 (index : nat) : Q := nth index fctk_005_vektor 0.
Definition get_fctk_095 (index : nat) : Q := nth index fctk_095_vektor 0.
Definition get_Ecm (index : nat) : Q := nth index Ecm_vektor 0 * 1000.
Definition get_eps_cu3 (index : nat) : Q := nth index eps_cu3_vektor 0 / 1000.

(** [calculate_lambda] and [calculate_netta] assign the attribute in an
    [if]/[elif] without [else] and return the attribute: [None] stands for
    the case where neither branch has assigned it and the read fails. *)
Definition calculate_lambda (fck : Q) : option Q :=
  if Qle_bool fck 50 then Some 0.8
  else if Qlt_bool 50 fck && Qle_bool fck 90 then Some (0.8 - (fck / 50) / 400)
  else None.

Definition calculate_netta (fck : Q) : option Q :=
  if Qle_bool fck 50 then Some 1.0
  else if Qlt_bool 50 fck && Qle_bool fck 90 then Some (1.0 - (fck / 50) / 200)
  else None.

(** The concrete attributes of [__init__] that the solvers read. *)
Record concrete : Type := mk_concrete {
  fck : Q;
  fck_cube : Q;
  fcm : Q;
  fctm : Q;
  fctk_005 : Q;
  fctk_095 : Q;
  Ecm : Q;
  eps_cu3 : Q;
  lambda_factor : option Q;
  netta : option Q;
  fcd : Q;
  fctd : Q
}.

Definition init_concrete (concrete_class : string) : outcome concrete :=
  index <- get_index concrete_class ;;
  let fck := get_fck index in
  let fctk_005 := get_fctk_005 index in
  Returns (mk_concrete fck (get_fck_cube index) (get_fcm index) (get_fctm index)
             fctk_005 (get_fctk_095 index) (get_Ecm index) (get_eps_cu3 index)
             (calculate_lambda fck) (calculate_netta fck)
             (fck * alfa_cc / gamma_concrete)
             (fctk_005 * alfa_ct / gamma_concrete)).

End Material.

(** ** E1_SLS_Crack.py and E2_SLS_Crack.py: crack control *)

Module Crack_control.

Open Scope Q_scope.

(** Bar diameter matrix, reinforcement tension vector, crack width vector. *)
Definition Ø : list (list Q) :=
  [[40; 32; 20; 16; 12; 10; 8; 6];
   [32; 25; 16; 12; 10; 8; 6; 5];
   [25; 16; 12; 8; 6; 5; 4; 0]].
Definition a : list Q := [160; 200; 240; 280; 320; 360; 400; 450].
Definition w : list Q := [0.4; 0.3; 0.2].

Definition a_at (i : nat) : Q := nth i a 0.
Definition w_at (k : nat) : Q := nth k w 0.
Definition Ø_at (k i : nat) : Q := nth i (nth k Ø []) 0.

(** The clamp at the top of the function: [None] is Python's [None]. *)
Definition limit_stress (sigma : Q) : option Q :=
  if Qlt_bool sigma 160 then Some 160
  else if Qlt_bool 450 sigma then None
  else Some sigma.

(** The tests of the two [if]s. *)
Definition in_row (w_max : Q) (k : nat) : bool :=
  Qle_bool w_max (w_at k) && Qlt_bool (w_at (k+1)) w_max.
Definition in_column (sigma : Q) (i : nat) : bool :=
  Qle_bool (a_at i) sigma && Qlt_bool sigma (a_at (i+1)).

(** One pass of the inner loop body; the state is the local
    [max_bar_diameter], [None] while it is still unbound. *)
Definition column_step (w_max sigma : Q) (k : nat) (max_bar_diameter : option Q)
    (i : nat) : option Q :=
  let x1 := Ø_at k i * (w_at (k+1) - w_max) / (w_at (k+1) - w_at k)
            + Ø_at (k+1) i * (w_max - w_at k) / (w_at (k+1) - w_at k) in
  let x2 := Ø_at k (i+1) * (w_at (k+1) - w_max) / (w_at (k+1) - w_at k)
            + Ø_at (k+1) (i+1) * (w_max - w_at k) / (w_at (k+1) - w_at k) in
  if in_column sigma i then
    Some (x1 * (a_at (i+1) - sigma) / (a_at (i+1) - a_at i)
          + x2 * (sigma - a_at i) / (a_at (i+1) - a_at i))
  else max_bar_diameter.

(** One pass of the outer loop body. *)
Definition row_step (w_max sigma : Q) (max_bar_diameter : option Q) (k : nat) : option Q :=
  if in_row w_max k then
    fold_left (column_step w_max sigma k) (seq 0 (List.length a - 1)) max_bar_diameter
  else max_bar_diameter.

(** Returns [Some d] for a diameter, [None] for Python's [None]; reading
    the local while it is unbound raises. *)
Definition calculate_maximal_bar_diameter (w_max sigma : Q) : outcome (option Q) :=
  match limit_stress sigma with
  | None => Returns None
  | Some sigma =>
      match fold_left (row_step w_max sigma) (seq 0 (List.length w - 1)) None with
      | Some d => Returns (Some d)
      | None => Raises UnboundLocalError
      end
  end.

(** What [control_of_bar_diameter] returns: a boolean or the message that
    the control could not be executed. *)
Inductive control : Type :=
| Bool (b : bool)
| Message (s : string).

Definition not_executed : string :=
  "the stress is bigger that the maximum, and the crack control could not be executed".

Definition control_of_bar_diameter (bar_diameter : Q) (max_bar_diameter : option Q) : control :=
  match max_bar_diameter with
  | None => Message not_executed
  | Some m => if Qlt_bool bar_diameter m then Bool true else Bool false
  end.

(** The two lines of [__init__] that make up the check. *)
Definition check (crack_width sigma_s bar_diameter : Q) : outcome control :=
  max_bar_diameter <- calculate_maximal_bar_diameter crack_width sigma_s ;;
  Returns (control_of_bar_diameter bar_diameter max_bar_diameter).

(** *** The crack width limit *)

Definition calculate_kc (cnom c_min_dur : Q) : Q :=
  Qmin (cnom / c_min_dur) 1.3.

Definition list_of_exp_class : list string :=
  ["XC1"; "XC2"; "XC3"; "XC4"; "XD1"; "XD2"; "XD3"; "XS1"; "XS2"; "XS3"]%string.

Definition get_limit_value (exposure_class : string) (k_c : Q) : outcome Q :=
  if String.eqb exposure_class "X0" then Returns 0.4
  else if str_in exposure_class list_of_exp_class then Returns (0.3 * k_c)
  else Raises ValueError.


(** The crack width limit as the two [__init__]s chain it: the cover of
    [Cross_section], then [calculate_kc] and [get_limit_value]. *)
Definition crack_width_of (bar_diameter : Q) (exposure_class : string) : outcome Q :=
  c <- Cross_section.init_cover bar_diameter exposure_class ;;
  get_limit_value exposure_class
    (calculate_kc (Cross_section.cnom c) (Cross_section.c_min_dur c)).

(** The whole control from the inputs and the reinforcement stress. *)
Definition check_of (bar_diameter : Q) (exposure_class : string) (sigma_s : Q) : outcome control :=
  crack_width <- crack_width_of bar_diameter exposure_class ;;
  check crack_width sigma_s bar_diameter.

(** The lookup returned a diameter equal to [d]. *)
Definition returns_diameter (o : outcome (option Q)) (d : Q) : Prop :=
  match o with
  | Returns (Some v) => v == d
  | _ => False
  end.

End Crack_control.

Module Crack_control_prestressed.

(** The body in E2_SLS_Crack.py is the same text as in E1_SLS_Crack.py. *)
Definition calculate_maximal_bar_diameter : Q -> Q -> outcome (option Q) :=
  Crack_control.calculate_maximal_bar_diameter.

End Crack_control_prestressed.

(** ** I2_SLS_Stress.py: stress control of the prestressed section *)

Module Stress.

Open Scope Q_scope.

(** One pass of the body both branches share: the test of a single stress. *)
Definition within (allowed_pressure allowed_tension sigma : Q) : bool :=
  if Qlt_bool sigma 0 then
    if Qlt_bool allowed_pressure sigma then true else false
  else
    if Qlt_bool sigma allowed_tension then true else false.

(** [sigma_c_uncracked] is the list [top; bottom; prestress level].  Every
    path through the loop body returns, so the loop ends in its first
    pass; with an empty list the function falls off its end and returns
    Python's [None]. *)
Definition control_stress (fck fctm : Q) (control_M_cr : bool)
    (sigma_c_cracked : Q) (sigma_c_uncracked : list Q) : option bool :=
  let allowed_pressure := 0.6 * fck in
  let allowed_tension := fctm in
  if control_M_cr then
    Some (within allowed_pressure allowed_tension sigma_c_cracked)
  else
    match sigma_c_uncracked with
    | [] => None
    | sigma :: _ => Some (within allowed_pressure allowed_tension sigma)
    end.

(** *** Stress in the prestressed reinforcement *)

Definition calculate_reinforcement_stress_uncracked
    (sigma_c_prestress Ecm Ep sigma_p_max loss : Q) : Q :=
  let delta_eps_p := Qabs sigma_c_prestress / Ecm in
  let delta_sigma_p := delta_eps_p * Ep in
  sigma_p_max - delta_sigma_p - loss.

Definition calculate_reinforcement_stress_cracked
    (eps_cs Ep loss alpha sigma_p_max sigma_c_cracked E_middle : Q) : Q :=
  let eps_c := Qabs sigma_c_cracked / E_middle in
  let delta_eps_p := eps_c * (1 - alpha) / alpha in
  let delta_sigma_p := (delta_eps_p - eps_cs) * Ep in
  sigma_p_max - Qabs delta_sigma_p - loss.

(** The limits as the control is described: compression within
    [0.6 * fck] in magnitude, tension below [fctm]. *)
Definition within_limits (fck fctm sigma : Q) : Prop :=
  - (0.6 * fck) <= sigma /\ sigma < fctm.

End Stress.

(** ** F1_SLS_Deflection.py: deflection control *)

Module Deflection.

Open Scope Q_scope.

(** The control is modelled on binary64, as the code evaluates it: the
    product and the quotient of the limit each round.  (A span given as an
    [int] below 2^53 / 1000 gives the same limit: the product is then
    exact and the quotient rounds once in both cases.) *)
Definition max_deflection (length : float) : float := ((length * 1000) / 250)%float.

(** [self.max_deflection > total_deflection]. *)
Definition control_deflection (length total_deflection : float) : bool :=
  if (total_deflection <? max_deflection length)%float then true else false.


(** *** Tension stiffening and shrinkage *)


Definition h_0_vector : list Q := [100; 200; 300; 500].
Definition k_h_vector : list Q := [1; 0.85; 0.75; 0.7].
Definition h_0_at (i : nat) : Q := nth i h_0_vector 0.
Definition k_h_at (i : nat) : Q := nth i k_h_vector 0.

(** One pass of the interpolation loop; the state is the local [k_h],
    [None] while it is unbound. *)
Definition k_h_step (h_0 : Q) (k_h : option Q) (i : nat) : option Q :=
  if Qle_bool h_0 (h_0_at (i+1)) && Qle_bool (h_0_at i) h_0 then
    Some (((k_h_at (i+1) - k_h_at i) / (h_0_at (i+1) - h_0_at i)) * (h_0 - h_0_at i)
          + k_h_at i)
  else k_h.

(** The value of [k_h] after the loop. *)
Definition interpolate_k_h (h_0 : Q) : option Q :=
  fold_left (k_h_step h_0) (seq 0 (List.length h_0_vector - 1)) None.

Definition calculate_eps_cd (eps_cd0 Ac width height : Q) : outcome Q :=
  let h_0 := 2 * Ac / (2 * width + 2 * height) in
  match interpolate_k_h h_0 with
  | Some k_h =>
      let beta_ds := 1 in
      Returns (beta_ds * k_h * eps_cd0)
  | None => Raises UnboundLocalError
  end.

End Deflection.

(** ** B0_Load.py *)

Module Load_properties.

Open Scope Q_scope.

Definition calculate_q_k (g_k p_k : Q) : Q := g_k + p_k.

(** The list [[g_d, p_d, q_d]] as a triple. *)
Definition calculate_design_values_of_load (g_k p_k gamma_selfload gamma_liveload : Q)
    : Q * Q * Q :=
  let g_d := g_k * gamma_selfload in
  let p_d := p_k * gamma_liveload in
  let q_d := g_d + p_d in
  (g_d, p_d, q_d).

Definition calculate_Mg_k (g length : Q) : Q := (g * length ^ 2) / 8.
Definition calculate_Mp_k (p length : Q) : Q := (p * length ^ 2) / 8.
Definition calculate_M_k (Mg_k Mp_k : Q) : Q := Mg_k + Mp_k.
Definition calculate_Mg_d (g length : Q) : Q := (g * length ^ 2) / 8.
Definition calculate_Mp_d (p length : Q) : Q := (p * length ^ 2) / 8.
Definition calculate_M_Ed (Mg_d Mp_d : Q) : Q := Mg_d + Mp_d.
Definition calculate_V_k (q length : Q) : Q := q * length / 2.
Definition calculate_V_Ed (q length : Q) : Q := q * length / 2.

Definition calculate_sigma_p_max (fpk fp01k : Q) : Q := Qmin (0.8 * fpk) (0.9 * fp01k).
Definition calculate_P0_max (sigma_p_max Ap : Q) : Q := sigma_p_max * Ap.
Definition calculate_M_prestressed (P0 e : Q) : Q := - P0 * e * / 10 ^ 6.

Record load : Type := mk_load {
  g_k : Q; p_k : Q; q_k : Q;
  g_d : Q; p_d : Q; q_d : Q;
  Mg_k : Q; Mp_k : Q; M_k : Q;
  Mg_d : Q; Mp_d : Q; M_Ed : Q;
  V_k : Q; V_Ed : Q;
  sigma_p_max : Q; P0_d : Q; M_prestress : Q
}.

(** [__init__], with the attributes of the material and the cross section
    it reads passed in; the live-load design moment goes through
    [calculate_Mg_d], as in the source. *)
Definition init (selfload liveload length : Q) (fpk fp01k Ap e : Q) : load :=
  let g_k := selfload in
  let p_k := liveload in
  let q_k := calculate_q_k g_k p_k in
  let design := calculate_design_values_of_load g_k p_k
                  Material.gamma_selfload Material.gamma_liveload in
  let g_d := fst (fst design) in
  let p_d := snd (fst design) in
  let q_d := snd design in
  let Mg_k := calculate_Mg_k g_k length in
  let Mp_k := calculate_Mp_k p_k length in
  let M_k := calculate_M_k Mg_k Mp_k in
  let Mg_d := calculate_Mg_d g_d length in
  let Mp_d := calculate_Mg_d p_d length in
  let M_Ed := calculate_M_Ed Mg_d Mp_d in
  let V_k := calculate_V_k q_k length in
  let V_Ed := calculate_V_Ed q_d length in
  let sigma_p_max := calculate_sigma_p_max fpk fp01k in
  let P0_d := calculate_P0_max sigma_p_max Ap in
  let M_prestress := calculate_M_prestressed P0_d e in
  mk_load g_k p_k q_k g_d p_d q_d Mg_k Mp_k M_k Mg_d Mp_d M_Ed V_k V_Ed
    sigma_p_max P0_d M_prestress.

End Load_properties.

(** ** H2_SLS_Uncracked.py: the transformed uncracked section *)

Module Uncracked_stress.

Open Scope Q_scope.

Definition calculate_netta (Ep Ecm : Q) : Q := Ep / Ecm.





End Uncracked_stress.

(** ** G2_SLS_Cracked.py: the root search of the cracked section *)

Module Cracked_Stress.

Open Scope Q_scope.

Definition coefficients (d e a netta ro_l : Q) : list Q :=
  [d / (6 * (e + a)); 0.5 * (1 - d / (e + a)); netta * ro_l; - netta * ro_l].

(** The loop over the roots: the first root in the open interval is
    returned; falling off the end of the function returns Python's
    [None]. *)
Fixpoint first_valid (roots : list Q) : option Q :=
  match roots with
  | [] => None
  | num :: rest =>
      if Qlt_bool 0 num && Qlt_bool num 1 then Some num
      else first_valid rest
  end.

(** [np_roots] stands for NumPy's [numpy.roots], which is not code of this
    repository: it maps the coefficient list to the array of roots, a real
    array when every root is real. *)
Definition calculate_alpha (np_roots : list Q -> list Q)
    (d e a netta ro_l : Q) : outcome (option Q) :=
  let roots := np_roots (coefficients d e a netta ro_l) in
  Returns (first_valid roots).

(** Value of the polynomial with the given coefficients, highest degree
    first, at [x]. *)
Definition polyval (coeffs : list Q) (x : Q) : Q :=
  fold_left (fun acc c => acc * x + c) coeffs 0.

End Cracked_Stress.

(** ** B0_Creep_number.py *)

Module Creep_number.

Open Scope R_scope.
Open Scope string_scope.

(** [x ** y] with a float exponent.  For a positive base it is the real
    power; [0.0 ** y] is [0.0] for the positive exponents used here.  A
    negative base gives a complex number in Python and is outside this
    model: the theorems below keep every base positive. *)
Definition float_pow (x y : R) : R :=
  if Rlt_dec 0 x then Rpower x y else 0.

Definition calculate_h0 (Ac width height : R) : R :=
  (2 * Ac) / (2 * (width + height)).

Definition calculate_beta_fcm (fcm : R) : R :=
  16.8 / float_pow fcm 0.5.

Definition calculate_phi_RH (h0 fcm RH : R) : R :=
  let alpha_1 := float_pow (35 / fcm) 0.7 in
  let alpha_2 := float_pow (35 / fcm) 0.2 in
  if Rle_dec fcm 35 then
    1 + (1 - RH / 100) / (0.1 * float_pow h0 (1 / 3))
  else
    (1 + ((1 - RH / 100) / (0.1 * float_pow h0 (1 / 3))) * alpha_1) * alpha_2.

Definition calculate_t0_adjusted (t0 : R) (cement_class : string) : outcome R :=
  alpha_cement <-
    (if String.eqb cement_class "S" then Returns (-1)%Z
     else if String.eqb cement_class "N" then Returns 0%Z
     else if String.eqb cement_class "R" then Returns 1%Z
     else Raises ValueError) ;;
  Returns (Rmax (t0 * powerRZ (9 / (2 + float_pow t0 1.2) + 1) alpha_cement) 0.5).

Definition calculate_beta_t0 (t0_adjusted : R) : R :=
  1 / (0.1 + float_pow t0_adjusted 0.20).

Definition calculate_phi_0 (phi_RH beta_fcm beta_t0 : R) : R :=
  phi_RH * beta_fcm * beta_t0.

Definition calculate_beta_c (t0 t RH h0 fcm : R) : R :=
  let alpha_3 := float_pow (35 / fcm) 0.5 in
  let beta_H :=
    if Rle_dec fcm 35 then
      Rmin (1.5 * (1 + (0.012 * RH) ^ 18) * h0 + 250) 1500
    else
      Rmin (1.5 * (1 + (0.012 * RH) ^ 18) * h0 + 250 * alpha_3) (1500 * alpha_3) in
  float_pow ((t - t0) / (beta_H + t - t0)) 0.3.

(** The ceiling value [beta_H] that [calculate_beta_c] computes on its way,
    on its own. *)
Definition beta_H (RH h0 fcm : R) : R :=
  if Rle_dec fcm 35 then
    Rmin (1.5 * (1 + (0.012 * RH) ^ 18) * h0 + 250) 1500
  else
    Rmin (1.5 * (1 + (0.012 * RH) ^ 18) * h0 + 250 * float_pow (35 / fcm) 0.5)
         (1500 * float_pow (35 / fcm) 0.5).

Definition calcualte_phi (phi_0 beta_c : R) : R :=
  phi_0 * beta_c.

Record creep : Type := mk_creep {
  h0 : R;
  beta_fcm : R;
  phi_RH : R;
  t0_adjusted_self : R;
  t0_adjusted_live : R;
  beta_t0_self : R;
  beta_t0_live : R;
  phi_0_self : R;
  phi_0_live : R;
  beta_c : R;
  phi_selfload : R;
  phi_liveload : R
}.

(** [__init__], with the attributes of the cross section and the material
    it reads passed in; [t] defaults to 18263 days in the source. *)
Definition init (Ac width height fcm t0_self t0_live RH : R)
    (cement_class : string) (t : R) : outcome creep :=
  let h0 := calculate_h0 Ac width height in
  let beta_fcm := calculate_beta_fcm fcm in
  let phi_RH := calculate_phi_RH h0 fcm RH in
  t0_adjusted_self <- calculate_t0_adjusted t0_self cement_class ;;
  t0_adjusted_live <- calculate_t0_adjusted t0_live cement_class ;;
  let beta_t0_self := calculate_beta_t0 t0_adjusted_self in
  let beta_t0_live := calculate_beta_t0 t0_adjusted_live in
  let phi_0_self := calculate_phi_0 phi_RH beta_fcm beta_t0_self in
  let phi_0_live := calculate_phi_0 phi_RH beta_fcm beta_t0_live in
  let beta_c := calculate_beta_c t0_self t RH h0 fcm in
  let phi_selfload := calcualte_phi phi_0_self beta_c in
  let phi_liveload := calcualte_phi phi_0_live beta_c in
  Returns (mk_creep h0 beta_fcm phi_RH t0_adjusted_self t0_adjusted_live
             beta_t0_self beta_t0_live phi_0_self phi_0_live beta_c
             phi_selfload phi_liveload).

End Creep_number.

(** ** C1_ULS.py: the ordinary-reinforced solver *)

Module ULS.

Open Scope R_scope.

Definition alpha_bal (eps_cu3 eps_yd : R) : R :=
  eps_cu3 / (eps_cu3 + eps_yd).

Definition As_balanced (eps_cu3 eps_yd fcd width d fyd lambda_factor netta : R) : R :=
  lambda_factor * netta * alpha_bal eps_cu3 eps_yd * width * d * fcd / fyd.

(** The closed form of the under-reinforced branch. *)
Definition alpha_under (As fcd width d fyd lambda_factor netta : R) : R :=
  (fyd * As) / (lambda_factor * netta * fcd * width * d).

(** The two roots of the quadratic of the over-reinforced branch. *)
Definition root_plus (a b c : R) : R := (- b + sqrt (b ^ 2 - 4 * a * c)) / (2 * a).
Definition root_minus (a b c : R) : R := (- b - sqrt (b ^ 2 - 4 * a * c)) / (2 * a).

Definition alpha_over (eps_cu3 As Es fcd width d lambda_factor netta : R) : R :=
  let a := lambda_factor * netta * fcd * width * d in
  let b := eps_cu3 * Es * As in
  let c := - eps_cu3 * Es * As in
  Rmax (root_plus a b c) (root_minus a b c).

(** On the reals the test of the [elif] is the complement of the test of
    the [if], so the second branch is the [else]. *)
Definition calculate_alpha (eps_cu3 eps_yd As Es fcd width d fyd lambda_factor netta : R) : R :=
  if Rle_dec As (As_balanced eps_cu3 eps_yd fcd width d fyd lambda_factor netta) then
    alpha_under As fcd width d fyd lambda_factor netta
  else
    alpha_over eps_cu3 As Es fcd width d lambda_factor netta.

Definition calculate_M_Rd (alpha fcd width d lambda_factor netta : R) : R :=
  let M_Rd := lambda_factor * netta * alpha * (1 - 0.5 * lambda_factor * alpha)
              * fcd * width * d ^ 2 in
  M_Rd * / 10 ^ 6.


End ULS.

(** *** The same solver on binary64 *)

(** The statements of [calculate_alpha] with every operation rounded, in
    the order Python evaluates them (products and quotients from the left,
    the unary minus before the product). *)

Module ULS_binary64.

Open Scope float_scope.

Definition alpha_bal (eps_cu3 eps_yd : float) : float :=
  eps_cu3 / (eps_cu3 + eps_yd).

Definition As_balanced (eps_cu3 eps_yd fcd width d fyd lambda_factor netta : float) : float :=
  lambda_factor * netta * alpha_bal eps_cu3 eps_yd * width * d * fcd / fyd.

Definition alpha_under (As fcd width d fyd lambda_factor netta : float) : float :=
  (fyd * As) / (lambda_factor * netta * fcd * width * d).

(** [b ** 2] is the correctly rounded square; [max] is Python's. *)
Definition alpha_over (eps_cu3 As Es fcd width d lambda_factor netta : float) : float :=
  let a := lambda_factor * netta * fcd * width * d in
  let b := eps_cu3 * Es * As in
  let c := - eps_cu3 * Es * As in
  Binary64.max ((- b + PrimFloat.sqrt (b * b - 4 * a * c)) / (2 * a))
               ((- b - PrimFloat.sqrt (b * b - 4 * a * c)) / (2 * a)).

(** With a NaN neither test holds and the [return] reads an unbound
    local. *)
Definition calculate_alpha (eps_cu3 eps_yd As Es fcd width d fyd lambda_factor netta : float)
    : outcome float :=
  let As_balanced := As_balanced eps_cu3 eps_yd fcd width d fyd lambda_factor netta in
  if As <=? As_balanced then
    Returns (alpha_under As fcd width d fyd lambda_factor netta)
  else if As_balanced <? As then
    Returns (alpha_over eps_cu3 As Es fcd width d lambda_factor netta)
  else Raises UnboundLocalError.

End ULS_binary64.

(** ** C3_ULS.py: prestressed with ordinary reinforcement in top *)

Module ULS_prestress_and_ordinary.

Open Scope R_scope.

Definition calculate_strain_diff (sigma_p Ep loss : R) : R :=
  let eps_p0 := sigma_p / Ep in
  let eps_loss := (loss / 100) * eps_p0 in
  eps_p0 - eps_loss.

Definition calculate_alpha (eps_cu3 Ap Ep fcd eps_diff width d fpd lambda_factor
    netta fyd As : R) : R :=
  let alpha_b := eps_cu3 / (eps_cu3 + fpd / Ep - eps_diff) in
  let Apb := (netta * lambda_factor * alpha_b * width * d * fcd + fyd * As) / fpd in
  let alpha :=
    if Rle_dec Ap Apb then
      (fpd * Ap - fyd * As) / (netta * lambda_factor * fcd * width * d)
    else
      let a := netta * lambda_factor * fcd * width * d in
      let b := fyd * As + (eps_cu3 - eps_diff) * Ep * Ap in
      let c := - eps_cu3 * Ep * Ap in
      Rmax (ULS.root_plus a b c) (ULS.root_minus a b c) in
  Rabs alpha.

(** The attribute [self.sigma_cp] that [calc_shear_capacity] sets on its
    way. *)
Definition sigma_cp (Ac fcd P0 gamma_prestress loss : R) : R :=
  let N_Ed := Rabs P0 * gamma_prestress * (1 - loss / 100) in
  Rmin (N_Ed / Ac) (0.2 * fcd).

(** The chained comparison [lo < x <= hi]. *)
Definition lt_le (lo x hi : R) : bool :=
  if Rlt_dec lo x then (if Rle_dec x hi then true else false) else false.

(** The coefficient [alpha_cw] that [control_V] chooses in its [else]
    branch; the second test compares with 0.25, as in the source. *)
Definition alpha_cw (sigma_cp fcd : R) : R :=
  if lt_le 0 sigma_cp (0.25 * fcd) then 1 + sigma_cp / fcd
  else if lt_le 0.25 sigma_cp (0.5 * fcd) then 1.25
  else 2.5 * (1 - sigma_cp / fcd).

End ULS_prestress_and_ordinary.

(** ** D1_Reinforcement.py: reinforcement control of the ordinary section *)

Module Reinforcement_control.

Open Scope R_scope.


Definition calculate_As_min (fctm fyk width d : R) : R :=
  Rmax (0.26 * (fctm / fyk) * width * d) (0.0013 * width * d).

Definition calculate_As_max (Ac : R) : R := 0.04 * Ac.

Definition control_reinforcement (As As_necessary As_max As_min : R) : bool :=
  if Rgt_dec As As_max then false
  else if Rlt_dec As As_min then false
  else if Rlt_dec As As_necessary then false
  else true.

(** [self.Asw_min], with [alpha = pi / 2] for vertical bars. *)
Definition Asw_min (fck fyk width : R) : R :=
  let ro_w_min := 0.1 * sqrt fck / fyk in
  let alpha := PI / 2 in
  let b_w := width in
  ro_w_min * b_w * sin alpha.

Definition control_reinforcement_shear (fck fyk width Asw : R) : bool :=
  if Rlt_dec (Asw_min fck fyk width) Asw then true else false.

End Reinforcement_control.

(** ** E1_SLS_Crack.py and F1_SLS_Deflection.py: the cracked ordinary section *)

Module Cracked_section.

Open Scope R_scope.


(** [Crack_control.calculate_alpha]. *)
Definition calculate_alpha (Es Ec_middle As width d : R) : R :=
  let netta := Es / Ec_middle in
  let ro := As / (width * d) in
  sqrt ((netta * ro) ^ 2 + 2 * netta * ro) - netta * ro.

(** [Crack_control.calculate_reinforcement_stress]. *)
Definition calculate_reinforcement_stress (alpha width d M Ec_middle Es As : R) : R :=
  let Ic2 := (width * (alpha * d) ^ 3) / 3 in
  let Is2 := As * ((1 - alpha) * d) ^ 2 in
  let EI_2 := Ec_middle * Ic2 + Es * Is2 in
  Es * (M * 10 ^ 6 * (1 - alpha) * d) / EI_2.

End Cracked_section.

(** * Properties *)

(** ** Comparisons on rationals *)

Section Comparisons.

Open Scope Q_scope.

Lemma Qlt_bool_iff (x y : Q) : Qlt_bool x y = true <-> x < y.
Proof.
  unfold Qlt_bool. rewrite negb_true_iff, <- not_true_iff_false, Qle_bool_iff.
  split; [apply Qnot_le_lt | apply Qlt_not_le].
Qed.

Lemma Qlt_bool_false_iff (x y : Q) : Qlt_bool x y = false <-> y <= x.
Proof.
  unfold Qlt_bool. rewrite negb_false_iff. apply Qle_bool_iff.
Qed.

Lemma Qle_bool_false_iff (x y : Q) : Qle_bool x y = false <-> y < x.
Proof.
  rewrite <- not_true_iff_false, Qle_bool_iff.
  split; [apply Qnot_le_lt | apply Qlt_not_le].
Qed.

End Comparisons.

(** Turns every boolean comparison of the context into its proposition. *)
Ltac reflect_Q :=
repeat match goal with
| H : Qlt_bool _ _ = true |- _ => apply Qlt_bool_iff in H
| H : Qlt_bool _ _ = false |- _ => apply Qlt_bool_false_iff in H
| H : Qle_bool _ _ = true |- _ => apply Qle_bool_iff in H
| H : Qle_bool _ _ = false |- _ => apply Qle_bool_false_iff in H
| H : _ && _ = true |- _ => apply andb_true_iff in H; destruct H
end.

(** ** Nominal cover *)

Section Cover.

Import Cross_section.
Open Scope Q_scope.
Open Scope string_scope.

(** For X0 the exposure minimum is the bonding minimum, which follows the
    bar diameter. *)
Lemma c_min_dur_X0 (c_min_b : Q) : get_c_min_dur "X0" c_min_b = Returns c_min_b.
Proof. reflexivity. Qed.

(** C7, as stated, fails: the exposure-class minimum of class X0 is not a
    fixed value, it differs between bar diameters 12 and 20. *)
Lemma exposure_minimum_X0_follows_bar_diameter :
  In "X0" recognized /\
  exists c1 c2,
    init_cover 12 "X0" = Returns c1 /\
    init_cover 20 "X0" = Returns c2 /\
    c_min_dur c1 == 12 /\ c_min_dur c2 == 20 /\
    ~ c_min_dur c1 == c_min_dur c2.
Proof.
  split; [simpl; auto |].
  eexists; eexists.
  split; [reflexivity |]. split; [reflexivity |].
  simpl. repeat split; try (vm_compute; reflexivity).
  intro H. vm_compute in H. discriminate H.
Qed.

(** C7 (amended): for every recognized exposure class and every bar
    diameter the cover is computed without error, the nominal cover is
    max(bonding minimum, exposure minimum, 10) + 10, and the exposure
    minimum is the fixed value of the class's group for every class but
    X0, where it is the bonding minimum max(bar diameter, 10). *)
Theorem cnom_of_recognized_class (exposure_class : string) (bar_diameter : Q) :
  In exposure_class recognized ->
  exists c,
    init_cover bar_diameter exposure_class = Returns c /\
    c_min_b c = Qmax bar_diameter 10 /\
    cnom c = Qmax (Qmax (c_min_b c) (c_min_dur c)) 10 + 10 /\
    (exposure_class = "X0" -> c_min_dur c = c_min_b c) /\
    (exposure_class <> "X0" -> group_minimum exposure_class = Some (c_min_dur c)).
Proof.
  unfold recognized. intro Hin. simpl in Hin.
  repeat (destruct Hin as [Hin | Hin]; [subst exposure_class |]);
    try contradiction;
    (eexists; split; [reflexivity |]; simpl;
     repeat split; try reflexivity; intros; try congruence; try discriminate).
Qed.

Lemma cnom_of_recognized_class_witness :
  exists c,
    init_cover 20 "XC1" = Returns c /\
    c_min_b c = Qmax 20 10 /\
    cnom c = Qmax (Qmax (c_min_b c) (c_min_dur c)) 10 + 10 /\
    ("XC1" = "X0" -> c_min_dur c = c_min_b c) /\
    ("XC1" <> "X0" -> group_minimum "XC1" = Some (c_min_dur c)).
Proof.
  apply (cnom_of_recognized_class "XC1" 20). simpl. auto.
Defined.

(** An unrecognized class is a hard error. *)
Lemma unknown_exposure_class_raises (bar_diameter : Q) :
  init_cover bar_diameter "XA1" = Raises ValueError.
Proof. reflexivity. Qed.

End Cover.

(** ** Prestress strand lookup *)

Section Strand.

Import Material.
Open Scope Q_scope.
Open Scope string_scope.

Lemma init_prestress_absent (prestress_diameter : Q) :
  init_prestress None prestress_diameter = mk_prestress None 0 0 0 0 0 0.
Proof. reflexivity. Qed.

(** The attributes only depend on the index found. *)
Lemma init_prestress_no_index (prestress_name : option string) (prestress_diameter : Q) :
  get_index_prestress prestress_name prestress_diameter = None ->
  init_prestress prestress_name prestress_diameter = mk_prestress None 0 0 0 0 0 0.
Proof.
  intro H. unfold init_prestress. rewrite H. reflexivity.
Qed.

Lemma match_diameter_unlisted (prestress_diameter : Q) (cases : list (Q * nat)) :
  (forall x, In x (map fst cases) -> ~ prestress_diameter == x) ->
  match_diameter prestress_diameter cases = None.
Proof.
  induction cases as [| [lit idx] rest IH]; intro H; simpl.
  - reflexivity.
  - destruct (Qeq_bool prestress_diameter lit) eqn:E.
    + apply Qeq_bool_iff in E. exfalso. apply (H lit); [left; reflexivity | exact E].
    + apply IH. intros x Hx. apply H. right. exact Hx.
Qed.

Lemma match_name_unlisted (prestress_name : string) (cases : list (string * nat)) :
  ~ In prestress_name (map fst cases) ->
  match_name prestress_name cases = None.
Proof.
  induction cases as [| [lit idx] rest IH]; intro H; simpl.
  - reflexivity.
  - destruct (String.eqb prestress_name lit) eqn:E.
    + apply String.eqb_eq in E. exfalso. apply H. left. symmetry. exact E.
    + apply IH. intro Hin. apply H. right. exact Hin.
Qed.

Lemma unknown_name_no_index (name : string) (prestress_diameter : Q) :
  ~ In name recognized_names ->
  get_index_prestress (Some name) prestress_diameter = None.
Proof.
  intro H. unfold get_index_prestress.
  destruct (String.eqb name "Y1860S3") eqn:E1;
    [apply String.eqb_eq in E1; exfalso; apply H; subst; simpl; auto |].
  destruct (String.eqb name "Y1860S7") eqn:E2;
    [apply String.eqb_eq in E2; exfalso; apply H; subst; simpl; auto |].
  destruct (String.eqb name "Y1770S7") eqn:E3;
    [apply String.eqb_eq in E3; exfalso; apply H; subst; simpl; auto |].
  apply match_name_unlisted. intro Hin. apply H.
  unfold recognized_names. apply in_or_app. right. exact Hin.
Qed.

Lemma unlisted_diameter_no_index (name : string) (prestress_diameter : Q) (l : list Q) :
  listed_diameters name = Some l ->
  (forall x, In x l -> ~ prestress_diameter == x) ->
  get_index_prestress (Some name) prestress_diameter = None.
Proof.
  unfold listed_diameters, get_index_prestress. intros Hl Hd.
  destruct (String.eqb name "Y1860S3");
    [injection Hl as <-; apply match_diameter_unlisted; exact Hd |].
  destruct (String.eqb name "Y1860S7");
    [injection Hl as <-; apply match_diameter_unlisted; exact Hd |].
  destruct (String.eqb name "Y1770S7");
    [injection Hl as <-; apply match_diameter_unlisted; exact Hd |].
  discriminate Hl.
Qed.

(** C10: a strand name that the table does not know, or one of the three
    names with listed diameters paired with a diameter that is not among
    them, gives no index and every prestress property is 0, exactly as
    for an absent name.  The ten other names of the table list no
    diameter: the lookup does not read the diameter for them and returns
    the index of their single entry whatever the diameter is. *)
Theorem unknown_strand_defaults_to_zero (name : string) (prestress_diameter : Q) :
  (~ In name recognized_names \/
   (exists l, listed_diameters name = Some l /\
              forall x, In x l -> ~ prestress_diameter == x) ->
   let m := init_prestress (Some name) prestress_diameter in
   m = init_prestress None prestress_diameter /\
   index_prestress m = None /\
   fpk m = 0 /\ Ap_strand m = 0 /\ Fpk m = 0 /\ Fp01k m = 0 /\ fp01k m = 0 /\ fpd m = 0) /\
  (In name recognized_names -> listed_diameters name = None ->
   exists idx,
     (forall any_diameter,
        get_index_prestress (Some name) any_diameter = Some idx) /\
     0 < fpk (init_prestress (Some name) prestress_diameter)).
Proof.
  split.
  - intros H m.
    assert (Hidx : get_index_prestress (Some name) prestress_diameter = None).
    { destruct H as [H | [l [Hl Hd]]].
      - apply unknown_name_no_index. exact H.
      - apply (unlisted_diameter_no_index name prestress_diameter l Hl Hd). }
    subst m. rewrite (init_prestress_no_index _ _ Hidx), init_prestress_absent.
    simpl. repeat split.
  - intros Hin Hl. simpl in Hin.
    repeat (destruct Hin as [Hin | Hin];
            [subst name; first [discriminate Hl
                               | eexists; split; [intro; reflexivity | reflexivity]] |]).
    contradiction.
Qed.

Lemma unknown_strand_defaults_to_zero_witness :
  let m := init_prestress (Some "Y1860S3") 8 in
  m = init_prestress None 8 /\
  index_prestress m = None /\
  fpk m = 0 /\ Ap_strand m = 0 /\ Fpk m = 0 /\ Fp01k m = 0 /\ fp01k m = 0 /\ fpd m = 0.
Proof.
  apply (proj1 (unknown_strand_defaults_to_zero "Y1860S3" 8)).
  right. exists (map fst cases_Y1860S3). split; [reflexivity |].
  intros x Hx. simpl in Hx.
  repeat (destruct Hx as [Hx | Hx]; [subst x; intro E; vm_compute in E; discriminate E |]).
  contradiction.
Defined.

(** C10, as stated, fails for the names that list no diameter: Y1860S7G is
    in the table, no diameter is listed for it, and with a diameter of
    99 mm the lookup still returns index 14 and the properties of that
    entry instead of zeros. *)
Lemma strand_without_listed_diameter_keeps_index :
  In "Y1860S7G" recognized_names /\
  listed_diameters "Y1860S7G" = None /\
  get_index_prestress (Some "Y1860S7G") 99 = Some 14%nat /\
  fpk (init_prestress (Some "Y1860S7G") 99) == 1860 /\
  Ap_strand (init_prestress (Some "Y1860S7G") 99) == 112 /\
  ~ fpd (init_prestress (Some "Y1860S7G") 99) == 0.
Proof.
  split; [simpl; auto 10 |].
  split; [reflexivity |].
  split; [reflexivity |].
  split; [reflexivity |].
  split; [reflexivity |].
  intro H. vm_compute in H. discriminate H.
Qed.

(** A name the table does not know at all. *)
Lemma misspelt_strand_defaults_to_zero :
  init_prestress (Some "Y1860") 12.5 = mk_prestress None 0 0 0 0 0 0.
Proof. reflexivity. Qed.

(** A listed pair, for comparison. *)
Lemma listed_strand_has_index :
  get_index_prestress (Some "Y1770S7") 15.2 = Some 11%nat /\
  fpk (init_prestress (Some "Y1770S7") 15.2) = 1770.
Proof. split; reflexivity. Qed.

(** The names of the last group are looked up without their diameter. *)
Lemma single_entry_name_ignores_diameter (prestress_diameter : Q) :
  get_index_prestress (Some "Y1860S7G") prestress_diameter = Some 14%nat.
Proof. reflexivity. Qed.

End Strand.

(** ** Crack control: the bar diameter table *)

Section Crack.

Import Crack_control.
Open Scope Q_scope.

Lemma limit_stress_above (sigma : Q) : 450 < sigma -> limit_stress sigma = None.
Proof.
  intro H. unfold limit_stress.
  destruct (Qlt_bool sigma 160) eqn:E1; [exfalso; reflect_Q; lra |].
  destruct (Qlt_bool 450 sigma) eqn:E2; [reflexivity | exfalso; reflect_Q; lra].
Qed.

Lemma limit_stress_below (sigma : Q) : sigma < 160 -> limit_stress sigma = Some 160.
Proof.
  intro H. unfold limit_stress. apply Qlt_bool_iff in H. rewrite H. reflexivity.
Qed.

Lemma limit_stress_within (sigma : Q) :
  160 <= sigma -> sigma <= 450 -> limit_stress sigma = Some sigma.
Proof.
  intros H1 H2. unfold limit_stress.
  apply Qlt_bool_false_iff in H1. apply Qlt_bool_false_iff in H2.
  rewrite H1, H2. reflexivity.
Qed.

(** Once the local is bound it stays bound. *)
Lemma columns_keep_bound (w_max sigma : Q) (k : nat) (l : list nat) :
  forall v, exists v', fold_left (column_step w_max sigma k) l (Some v) = Some v'.
Proof.
  induction l as [| i l IH]; intro v; simpl.
  - exists v. reflexivity.
  - unfold column_step at 2. destruct (in_column sigma i); apply IH.
Qed.

(** A column whose test succeeds binds the local. *)
Lemma columns_bind (w_max sigma : Q) (k : nat) (l : list nat) :
  forall st, (exists i, In i l /\ in_column sigma i = true) ->
  exists v, fold_left (column_step w_max sigma k) l st = Some v.
Proof.
  induction l as [| j l IH]; intros st [i [Hin Hhit]].
  - contradiction.
  - simpl. destruct Hin as [-> | Hin].
    + unfold column_step at 2. rewrite Hhit. apply columns_keep_bound.
    + apply IH. exists i. split; assumption.
Qed.

(** No column test succeeds: the local is left as it was. *)
Lemma columns_skip (w_max sigma : Q) (k : nat) (l : list nat) :
  forall st, (forall i, In i l -> in_column sigma i = false) ->
  fold_left (column_step w_max sigma k) l st = st.
Proof.
  induction l as [| j l IH]; intros st H; simpl.
  - reflexivity.
  - unfold column_step at 2. rewrite (H j) by (left; reflexivity).
    apply IH. intros i Hi. apply H. right. exact Hi.
Qed.

Lemma in_column_found (s : Q) :
  160 <= s -> s < 450 ->
  exists i, In i (seq 0 (List.length a - 1)) /\ in_column s i = true.
Proof.
  intros Hlo Hhi.
  assert (Hhit : forall i lo hi, a_at i = lo -> a_at (i+1) = hi ->
                 lo <= s -> s < hi -> in_column s i = true).
  { intros i lo hi E1 E2 H1 H2. unfold in_column. rewrite E1, E2.
    apply andb_true_iff. split; [apply Qle_bool_iff | apply Qlt_bool_iff]; assumption. }
  destruct (Qlt_le_dec s 200); [exists 0%nat; split; [simpl; auto | apply (Hhit _ 160 200); trivial] |].
  destruct (Qlt_le_dec s 240); [exists 1%nat; split; [simpl; auto | apply (Hhit _ 200 240); trivial] |].
  destruct (Qlt_le_dec s 280); [exists 2%nat; split; [simpl; auto | apply (Hhit _ 240 280); trivial] |].
  destruct (Qlt_le_dec s 320); [exists 3%nat; split; [simpl; auto 6 | apply (Hhit _ 280 320); trivial] |].
  destruct (Qlt_le_dec s 360); [exists 4%nat; split; [simpl; auto 7 | apply (Hhit _ 320 360); trivial] |].
  destruct (Qlt_le_dec s 400); [exists 5%nat; split; [simpl; auto 8 | apply (Hhit _ 360 400); trivial] |].
  exists 6%nat. split; [simpl; auto 9 | apply (Hhit _ 400 450); trivial].
Qed.

Lemma in_column_at_end (i : nat) :
  In i (seq 0 (List.length a - 1)) -> in_column 450 i = false.
Proof.
  simpl. intro H.
  repeat (destruct H as [<- | H]; [reflexivity |]). contradiction.
Qed.

(** The stress exceeds the table: the lookup returns [None] and the control
    returns its message, neither [True] nor [False] nor an exception. *)
Lemma check_above_table (crack_width sigma_s bar_diameter : Q) :
  450 < sigma_s ->
  calculate_maximal_bar_diameter crack_width sigma_s = Returns None /\
  check crack_width sigma_s bar_diameter = Returns (Message not_executed).
Proof.
  intro H. unfold check, calculate_maximal_bar_diameter.
  rewrite (limit_stress_above _ H). split; reflexivity.
Qed.

Lemma in_row_upper (crack_width : Q) :
  0.3 < crack_width -> crack_width <= 0.4 -> in_row crack_width 0 = true.
Proof.
  intros H1 H2. unfold in_row. apply andb_true_iff.
  split; [apply Qle_bool_iff | apply Qlt_bool_iff]; assumption.
Qed.

Lemma in_row_lower (crack_width : Q) :
  0.2 < crack_width -> crack_width <= 0.3 ->
  in_row crack_width 0 = false /\ in_row crack_width 1 = true.
Proof.
  intros H1 H2. unfold in_row. split.
  - apply andb_false_iff. right. apply Qlt_bool_false_iff. exact H2.
  - apply andb_true_iff.
    split; [apply Qle_bool_iff | apply Qlt_bool_iff]; assumption.
Qed.

(** With the crack width inside the rows and the stress below the last
    column, the two loops bind the local. *)
Lemma rows_bind (crack_width s : Q) :
  0.2 < crack_width -> crack_width <= 0.4 -> 160 <= s -> s < 450 ->
  exists v, fold_left (row_step crack_width s) (seq 0 (List.length w - 1)) None = Some v.
Proof.
  intros Hw1 Hw2 Hs1 Hs2.
  change (seq 0 (List.length w - 1)) with [0%nat; 1%nat].
  cbn [fold_left]. unfold row_step.
  destruct (Qlt_le_dec 0.3 crack_width) as [Hc | Hc].
  - rewrite (in_row_upper _ Hc Hw2).
    destruct (columns_bind crack_width s 0 (seq 0 (List.length a - 1)) None
                (in_column_found s Hs1 Hs2)) as [v ->].
    destruct (in_row crack_width 1); [apply columns_keep_bound | exists v; reflexivity].
  - destruct (in_row_lower _ Hw1 Hc) as [-> ->].
    apply columns_bind. apply in_column_found; assumption.
Qed.

(** Below the last column and with the crack width inside the rows, the
    lookup returns a diameter and the control a boolean. *)
Lemma check_inside_table (crack_width sigma_s bar_diameter : Q) :
  0.2 < crack_width -> crack_width <= 0.4 -> sigma_s < 450 ->
  (exists v, calculate_maximal_bar_diameter crack_width sigma_s = Returns (Some v)) /\
  (exists b, check crack_width sigma_s bar_diameter = Returns (Bool b)).
Proof.
  intros Hw1 Hw2 Hs.
  assert (Hv : exists v, calculate_maximal_bar_diameter crack_width sigma_s = Returns (Some v)).
  { unfold calculate_maximal_bar_diameter.
    destruct (Qlt_le_dec sigma_s 160) as [Hc | Hc].
    - rewrite (limit_stress_below _ Hc).
      destruct (rows_bind crack_width 160 Hw1 Hw2) as [v ->]; [lra | lra |].
      exists v. reflexivity.
    - rewrite (limit_stress_within _ Hc) by lra.
      destruct (rows_bind crack_width sigma_s Hw1 Hw2 Hc Hs) as [v ->].
      exists v. reflexivity. }
  split; [exact Hv |].
  destruct Hv as [v Hv]. unfold check. rewrite Hv. simpl.
  destruct (Qlt_bool bar_diameter v); eexists; reflexivity.
Qed.

(** At the last column no test of the inner loop succeeds, whatever the
    crack width: the local is read unbound. *)
Lemma lookup_at_table_end (crack_width : Q) :
  calculate_maximal_bar_diameter crack_width 450 = Raises UnboundLocalError.
Proof.
  unfold calculate_maximal_bar_diameter.
  rewrite limit_stress_within by lra.
  change (seq 0 (List.length w - 1)) with [0%nat; 1%nat].
  cbn [fold_left]. unfold row_step.
  rewrite !(columns_skip _ _ _ _ _ in_column_at_end).
  destruct (in_row crack_width 0); destruct (in_row crack_width 1); reflexivity.
Qed.

(** C1: at a reinforcement stress of exactly 450, which the clamp keeps as
    inside the table, the check does not return a diameter: it raises, for
    every crack width and bar diameter. *)
Theorem crack_check_raises_at_450 (crack_width bar_diameter : Q) :
  limit_stress 450 = Some 450 /\
  check crack_width 450 bar_diameter = Raises UnboundLocalError.
Proof.
  split; [reflexivity |].
  unfold check. rewrite lookup_at_table_end. reflexivity.
Qed.

(** Every vertex of the first two rows and first seven columns returns its
    table entry. *)
Lemma vertex_inside (k i : nat) :
  (k < 2)%nat -> (i < 7)%nat ->
  returns_diameter (calculate_maximal_bar_diameter (w_at k) (a_at i)) (Ø_at k i).
Proof.
  intros Hk Hi.
  destruct k as [| [| k]]; [| | lia];
    (destruct i as [| [| [| [| [| [| [| i]]]]]]]; [| | | | | | | lia];
     vm_compute; reflexivity).
Qed.

(** The crack width 0.2 of the last row is in no row interval. *)
Lemma lookup_at_last_row (sigma : Q) :
  sigma <= 450 ->
  calculate_maximal_bar_diameter 0.2 sigma = Raises UnboundLocalError.
Proof.
  intro H. unfold calculate_maximal_bar_diameter.
  destruct (Qlt_le_dec sigma 160) as [Hc | Hc];
    [rewrite (limit_stress_below _ Hc) | rewrite (limit_stress_within _ Hc H)];
    reflexivity.
Qed.

(** C5: the lookup at the vertices of the table.  The vertex (0.3, 240)
    returns 16 and so does every vertex of rows 0.4 and 0.3 up to column
    400, but the vertices of column 450 and of row 0.2 raise instead of
    returning their entry. *)
Theorem table_vertices_lookup :
  returns_diameter (calculate_maximal_bar_diameter 0.3 240) 16 /\
  (forall k i, (k < 2)%nat -> (i < 7)%nat ->
     returns_diameter (calculate_maximal_bar_diameter (w_at k) (a_at i)) (Ø_at k i)) /\
  (forall k, (k < 3)%nat ->
     calculate_maximal_bar_diameter (w_at k) (a_at 7) = Raises UnboundLocalError) /\
  (forall i, (i < 8)%nat ->
     calculate_maximal_bar_diameter (w_at 2) (a_at i) = Raises UnboundLocalError) /\
  Crack_control_prestressed.calculate_maximal_bar_diameter 0.3 450
    = Raises UnboundLocalError.
Proof.
  split; [vm_compute; reflexivity |].
  split; [exact vertex_inside |].
  split; [intros k _; apply lookup_at_table_end |].
  split; [| apply lookup_at_table_end].
  intros i Hi. change (w_at 2) with 0.2. apply lookup_at_last_row.
  destruct i as [| [| [| [| [| [| [| [| i]]]]]]]]; [| | | | | | | | lia];
    vm_compute; discriminate.
Qed.

End Crack.

(** ** Stress control *)

Section Stress_control.

Import Stress.
Open Scope Q_scope.

(** A compressive stress is compared with the positive [0.6 * fck], not
    with its negative: the comparison can never hold. *)
Lemma compression_never_passes (fck fctm sigma : Q) :
  0 <= fck -> sigma < 0 -> within (0.6 * fck) fctm sigma = false.
Proof.
  intros Hf Hs. unfold within.
  apply Qlt_bool_iff in Hs. rewrite Hs.
  destruct (Qlt_bool (0.6 * fck) sigma) eqn:E; [| reflexivity].
  exfalso. reflect_Q. lra.
Qed.

(** A tensile stress passes exactly when it is below [fctm]. *)
Lemma tension_passes_iff (fck fctm sigma : Q) :
  0 <= sigma -> (within (0.6 * fck) fctm sigma = true <-> sigma < fctm).
Proof.
  intro Hs. unfold within.
  apply Qlt_bool_false_iff in Hs. rewrite Hs.
  destruct (Qlt_bool sigma fctm) eqn:E; reflect_Q; split; intro H;
    try reflexivity; try assumption; try discriminate.
  exfalso. lra.
Qed.

(** Uncracked, the verdict is that of the first fiber alone. *)
Lemma uncracked_checks_first_fiber (fck fctm sigma_c_cracked top bottom prestress : Q) :
  control_stress fck fctm false sigma_c_cracked [top; bottom; prestress]
  = Some (within (0.6 * fck) fctm top).
Proof. reflexivity. Qed.

(** C3: the control on two inputs.  A cracked section with a compressive
    stress of 5, well within 0.6 * 30 = 18, is rejected; an uncracked
    section whose bottom fiber is in tension at 5, beyond fctm = 2.9, is
    accepted because only the top fiber is looked at. *)
Theorem stress_control_diverges :
  (within_limits 30 2.9 (-5) /\
   control_stress 30 2.9 true (-5) [-5; 1; -3] = Some false) /\
  (~ within_limits 30 2.9 5 /\
   control_stress 30 2.9 false (-5) [1; 5; 1] = Some true).
Proof.
  split; split.
  - unfold within_limits. split; lra.
  - reflexivity.
  - unfold within_limits. intros [_ H]. lra.
  - reflexivity.
Qed.

End Stress_control.

(** ** Deflection control *)

Section Deflection_control.

Import Deflection.
Open Scope Q_scope.
Open Scope float_scope.

(** A binary64 value is never below itself, NaN included. *)
Lemma ltb_irrefl (x : float) : (x <? x)%float = false.
Proof.
  rewrite ltb_spec. unfold SFltb, SFcompare.
  destruct (Prim2SF x) as [s | s | | s m e].
  - destruct s; reflexivity.
  - destruct s; reflexivity.
  - reflexivity.
  - destruct s; rewrite Z.compare_refl, Pos.compare_cont_refl; reflexivity.
Qed.

(** C9: the control passes exactly when the limit it computes,
    [(length * 1000) / 250] evaluated in binary64, strictly exceeds the
    total deflection, and it fails when the total deflection equals that
    computed limit. *)
Theorem deflection_limit_is_strict (length total_deflection : float) :
  (control_deflection length total_deflection = true
     <-> (total_deflection <? (length * 1000) / 250)%float = true) /\
  control_deflection length ((length * 1000) / 250)%float = false.
Proof.
  unfold control_deflection, max_deflection. split.
  - destruct (total_deflection <? length * 1000 / 250)%float;
      split; intro H; first [reflexivity | discriminate H].
  - rewrite ltb_irrefl. reflexivity.
Qed.

(** C9, as stated, fails where the computed limit is rounded up.  For a
    span of 1.0244 m the product with 1000 and the quotient by 250 round
    to 4.0976000000000008, one step above 4.0976; the binary64 value
    4.0976 is exactly four times the binary64 value 1.0244, that is
    exactly span/250 in millimetres, and the control passes it. *)
Lemma deflection_equal_to_span_over_250_passes :
  exists span deflection : Q,
    Binary64.exact_value 1.0244 = Some span /\
    Binary64.exact_value 4.0976 = Some deflection /\
    deflection == span * 1000 / 250 /\
    control_deflection 1.0244 4.0976 = true.
Proof.
  eexists. eexists.
  split; [vm_compute; reflexivity |].
  split; [vm_compute; reflexivity |].
  split; vm_compute; reflexivity.
Qed.

(** A 10 m span: the limit is 40 mm, 40 fails and 39.9 passes. *)
Lemma deflection_10m :
  control_deflection 10 40 = false /\ control_deflection 10 39.9 = true.
Proof. split; vm_compute; reflexivity. Qed.

End Deflection_control.

(** ** Root search of the cracked section *)

Section Root_search.

Import Cracked_Stress.
Open Scope Q_scope.

Lemma first_valid_none (roots : list Q) :
  (forall num, In num roots -> ~ (0 < num /\ num < 1)) ->
  first_valid roots = None.
Proof.
  induction roots as [| num rest IH]; intro H; simpl.
  - reflexivity.
  - destruct (Qlt_bool 0 num && Qlt_bool num 1) eqn:E.
    + exfalso. reflect_Q. apply (H num); [left; reflexivity | split; assumption].
    + apply IH. intros r Hr. apply H. right. exact Hr.
Qed.

(** When a root lies in the open interval, the first such root is the
    result. *)
Lemma first_valid_some (roots : list Q) (alpha : Q) :
  first_valid roots = Some alpha -> In alpha roots /\ 0 < alpha /\ alpha < 1.
Proof.
  induction roots as [| num rest IH]; simpl; intro H.
  - discriminate H.
  - destruct (Qlt_bool 0 num && Qlt_bool num 1) eqn:E.
    + injection H as <-. reflect_Q. auto.
    + destruct (IH H) as [Hin Hr]. auto.
Qed.

(** For d = 600, e = a = 100, netta = 6, ro_l = 0 the cubic is
    0.5 x^3 - x^2 with roots 2, 0, 0, none of them in (0,1), and the search
    returns [None] without raising anything. *)
Lemma root_search_returns_none :
  let roots := [2; 0; 0] in
  let result := calculate_alpha (fun _ => roots) 600 100 100 6 0 in
  (forall num, In num roots -> polyval (coefficients 600 100 100 6 0) num == 0) /\
  (forall num, In num roots -> ~ (0 < num /\ num < 1)) /\
  result = Returns None /\
  (forall ex, result <> Raises ex).
Proof.
  cbv zeta. repeat split.
  - intros num H. simpl in H.
    repeat (destruct H as [<- | H]; [vm_compute; reflexivity |]). contradiction.
  - intros num H [H0 H1]. simpl in H.
    repeat (destruct H as [<- | H]; [lra |]). contradiction.
  - intros ex H. discriminate H.
Qed.

(** C6: whenever no root lies in the open interval (0,1), the root search
    does not fail: the loop ends, the function falls off its end and
    returns [None]. *)
Theorem root_search_without_valid_root (np_roots : list Q -> list Q)
    (d e a netta ro_l : Q) :
  (forall num, In num (np_roots (coefficients d e a netta ro_l)) ->
     ~ (0 < num /\ num < 1)) ->
  calculate_alpha np_roots d e a netta ro_l = Returns None.
Proof.
  intro H. unfold calculate_alpha. rewrite (first_valid_none _ H). reflexivity.
Qed.

Lemma root_search_without_valid_root_witness :
  calculate_alpha (fun _ => [2; 0; 0]) 600 100 100 6 0 = Returns None.
Proof.
  apply (root_search_without_valid_root (fun _ => [2; 0; 0]) 600 100 100 6 0).
  intros num H [H0 H1]. simpl in H.
  repeat (destruct H as [<- | H]; [lra |]). contradiction.
Defined.

End Root_search.

(** ** The compression-zone factor of the ULS solvers *)

Section Compression_zone.

Open Scope R_scope.

(** With a positive leading coefficient the root with the plus sign is the
    larger one. *)
Lemma root_minus_le_plus (a b c : R) :
  0 < a -> ULS.root_minus a b c <= ULS.root_plus a b c.
Proof.
  intro Ha. unfold ULS.root_minus, ULS.root_plus.
  pose proof (sqrt_pos (b ^ 2 - 4 * a * c)) as Hs.
  apply Rmult_le_compat_r; [| lra].
  apply Rlt_le, Rinv_0_lt_compat. lra.
Qed.

Lemma larger_root_is_plus (a b c : R) :
  0 < a -> Rmax (ULS.root_plus a b c) (ULS.root_minus a b c) = ULS.root_plus a b c.
Proof.
  intro Ha. apply Rmax_left. apply root_minus_le_plus. exact Ha.
Qed.

(** The quadratic [a x^2 + b x - b] with positive [a] and [b] has its
    larger root strictly between 0 and 1. *)
Lemma root_plus_in_unit_interval (a b : R) :
  0 < a -> 0 < b -> 0 < ULS.root_plus a b (- b) < 1.
Proof.
  intros Ha Hb. unfold ULS.root_plus.
  assert (Hlo : b < sqrt (b ^ 2 - 4 * a * - b)).
  { rewrite <- (sqrt_pow2 b) at 1 by lra.
    apply sqrt_lt_1_alt. split; [apply pow2_ge_0 | nra]. }
  assert (Hhi : sqrt (b ^ 2 - 4 * a * - b) < 2 * a + b).
  { rewrite <- (sqrt_pow2 (2 * a + b)) by lra.
    apply sqrt_lt_1_alt. split; nra. }
  split.
  - apply Rdiv_lt_0_compat; lra.
  - apply (Rmult_lt_reg_r (2 * a)); [lra |].
    unfold Rdiv. rewrite Rmult_assoc, Rinv_l by lra. lra.
Qed.

Section Ordinary.

Variables eps_cu3 eps_yd Es fcd width d fyd lambda_factor netta : R.
Hypothesis eps_cu3_pos : 0 < eps_cu3.
Hypothesis eps_yd_pos : 0 < eps_yd.
Hypothesis Es_pos : 0 < Es.
Hypothesis fcd_pos : 0 < fcd.
Hypothesis width_pos : 0 < width.
Hypothesis d_pos : 0 < d.
Hypothesis fyd_pos : 0 < fyd.
Hypothesis lambda_pos : 0 < lambda_factor.
Hypothesis netta_pos : 0 < netta.

Let a := lambda_factor * netta * fcd * width * d.

Lemma zone_force_pos : 0 < a.
Proof.
  unfold a. repeat apply Rmult_lt_0_compat; assumption.
Qed.

Lemma alpha_bal_in_unit_interval : 0 < ULS.alpha_bal eps_cu3 eps_yd < 1.
Proof.
  unfold ULS.alpha_bal. split.
  - apply Rdiv_lt_0_compat; lra.
  - apply (Rmult_lt_reg_r (eps_cu3 + eps_yd)); [lra |].
    unfold Rdiv. rewrite Rmult_assoc, Rinv_l by lra. lra.
Qed.

Lemma As_balanced_eq :
  ULS.As_balanced eps_cu3 eps_yd fcd width d fyd lambda_factor netta
  = a * ULS.alpha_bal eps_cu3 eps_yd / fyd.
Proof.
  unfold ULS.As_balanced, a. field. lra.
Qed.

Lemma alpha_under_eq (As : R) :
  ULS.alpha_under As fcd width d fyd lambda_factor netta = fyd * As / a.
Proof. reflexivity. Qed.

(** The closed form at the balanced area is the balanced factor. *)
Lemma alpha_under_at_balance :
  ULS.alpha_under (ULS.As_balanced eps_cu3 eps_yd fcd width d fyd lambda_factor netta)
    fcd width d fyd lambda_factor netta
  = ULS.alpha_bal eps_cu3 eps_yd.
Proof.
  pose proof zone_force_pos as Ha.
  rewrite alpha_under_eq, As_balanced_eq. field. split; lra.
Qed.

(** The closed form stays strictly between 0 and 1 up to the balance
    point. *)
Lemma alpha_under_in_unit_interval (As : R) :
  0 < As ->
  As <= ULS.As_balanced eps_cu3 eps_yd fcd width d fyd lambda_factor netta ->
  0 < ULS.alpha_under As fcd width d fyd lambda_factor netta < 1.
Proof.
  intros HAs Hle.
  pose proof zone_force_pos as Ha.
  pose proof alpha_bal_in_unit_interval as [_ Hb].
  rewrite alpha_under_eq. rewrite As_balanced_eq in Hle.
  split.
  - apply Rdiv_lt_0_compat; [apply Rmult_lt_0_compat |]; assumption.
  - apply Rle_lt_trans with (ULS.alpha_bal eps_cu3 eps_yd); [| exact Hb].
    apply (Rmult_le_reg_r a); [exact Ha |].
    unfold Rdiv at 1. rewrite Rmult_assoc, Rinv_l by lra. rewrite Rmult_1_r.
    apply (Rmult_le_compat_l fyd) in Hle; [| lra].
    replace (fyd * (a * ULS.alpha_bal eps_cu3 eps_yd / fyd))
      with (ULS.alpha_bal eps_cu3 eps_yd * a) in Hle by (field; lra).
    exact Hle.
Qed.

Lemma alpha_over_eq (As : R) :
  ULS.alpha_over eps_cu3 As Es fcd width d lambda_factor netta
  = ULS.root_plus a (eps_cu3 * Es * As) (- (eps_cu3 * Es * As)).
Proof.
  unfold ULS.alpha_over. fold a.
  replace (- eps_cu3 * Es * As) with (- (eps_cu3 * Es * As)) by ring.
  apply larger_root_is_plus. exact zone_force_pos.
Qed.

Lemma alpha_over_in_unit_interval (As : R) :
  0 < As ->
  0 < ULS.alpha_over eps_cu3 As Es fcd width d lambda_factor netta < 1.
Proof.
  intro HAs. rewrite alpha_over_eq.
  apply root_plus_in_unit_interval; [exact zone_force_pos |].
  repeat apply Rmult_lt_0_compat; assumption.
Qed.

(** With the yield strain of the material, [eps_yd = fyd / Es], the larger
    root at the balanced area is the balanced factor. *)
Lemma alpha_over_at_balance :
  eps_yd = fyd / Es ->
  ULS.alpha_over eps_cu3 (ULS.As_balanced eps_cu3 eps_yd fcd width d fyd lambda_factor netta)
    Es fcd width d lambda_factor netta
  = ULS.alpha_bal eps_cu3 eps_yd.
Proof.
  intro Hyd.
  pose proof zone_force_pos as Ha.
  pose proof alpha_bal_in_unit_interval as [Hb0 Hb1].
  rewrite alpha_over_eq, As_balanced_eq.
  set (ab := ULS.alpha_bal eps_cu3 eps_yd) in *.
  set (b := eps_cu3 * Es * (a * ab / fyd)).
  assert (Hb : 0 < b).
  { unfold b. apply Rmult_lt_0_compat; [apply Rmult_lt_0_compat; assumption |].
    apply Rdiv_lt_0_compat; [apply Rmult_lt_0_compat |]; assumption. }
  assert (Hbal : a * ab ^ 2 = b * (1 - ab)).
  { unfold b, ab, ULS.alpha_bal. rewrite Hyd. field. repeat split; try lra.
    assert (0 < eps_cu3 * Es + fyd) by nra. lra. }
  unfold ULS.root_plus.
  replace (b ^ 2 - 4 * a * - b) with ((2 * a * ab + b) ^ 2) by nra.
  rewrite sqrt_pow2 by nra.
  field. lra.
Qed.

End Ordinary.

(** C8, as stated, fails for the variant with ordinary reinforcement in
    top: with one strand of 100 mm2 in tension and 8000 mm2 of ordinary
    steel the closed form is negative and its absolute value exceeds 1. *)
Lemma prestressed_alpha_above_one :
  0 < 100 /\
  1 < ULS_prestress_and_ordinary.calculate_alpha
        0.0035 100 195000 17 0.005 300 700 1400 0.8 1 400 8000.
Proof.
  split; [lra |].
  unfold ULS_prestress_and_ordinary.calculate_alpha.
  match goal with |- context [Rle_dec ?x ?y] => destruct (Rle_dec x y) as [H | H] end.
  - rewrite Rabs_left; lra.
  - exfalso. apply H. lra.
Qed.

(** C8 (amended): in the ordinary-reinforced solver, with positive material
    and section parameters and a positive reinforcement area, the factor
    lies strictly between 0 and 1; in the variant with ordinary
    reinforcement in top the factor is an absolute value and is only
    known to be non-negative. *)
Theorem alpha_in_unit_interval
    (eps_cu3 eps_yd As Es fcd width d fyd lambda_factor netta : R) :
  0 < eps_cu3 -> 0 < eps_yd -> 0 < Es -> 0 < fcd -> 0 < width -> 0 < d ->
  0 < fyd -> 0 < lambda_factor -> 0 < netta -> 0 < As ->
  0 < ULS.calculate_alpha eps_cu3 eps_yd As Es fcd width d fyd lambda_factor netta < 1 /\
  (forall Ap Ep eps_diff fpd As_top,
     0 <= ULS_prestress_and_ordinary.calculate_alpha
            eps_cu3 Ap Ep fcd eps_diff width d fpd lambda_factor netta fyd As_top).
Proof.
  intros H1 H2 H3 H4 H5 H6 H7 H8 H9 HAs. split.
  - unfold ULS.calculate_alpha.
    destruct (Rle_dec As (ULS.As_balanced eps_cu3 eps_yd fcd width d fyd lambda_factor netta))
      as [Hle | Hgt].
    + apply alpha_under_in_unit_interval with (eps_cu3 := eps_cu3) (eps_yd := eps_yd);
        assumption.
    + apply alpha_over_in_unit_interval; assumption.
  - intros. unfold ULS_prestress_and_ordinary.calculate_alpha. apply Rabs_pos.
Qed.

(** Four bars of 20 mm in the section above. *)
Lemma alpha_in_unit_interval_witness :
  0 < ULS.calculate_alpha 0.0035 (500 / 1.15 / 200000) 1256 200000 17 300 750
        (500 / 1.15) 0.8 1 < 1.
Proof.
  refine (proj1 (alpha_in_unit_interval
            0.0035 (500 / 1.15 / 200000) 1256 200000 17 300 750 (500 / 1.15) 0.8 1
            _ _ _ _ _ _ _ _ _ _)); lra.
Defined.

End Compression_zone.

(** ** Creep numbers *)

Section Creep.

Import Creep_number.
Open Scope R_scope.
Open Scope string_scope.

Lemma float_pow_pos (x y : R) : 0 < x -> 0 < float_pow x y.
Proof.
  intro Hx. unfold float_pow. destruct (Rlt_dec 0 x); [| contradiction].
  unfold Rpower. apply exp_pos.
Qed.

(** A power with a non-zero exponent is injective on positive bases. *)
Lemma float_pow_inj (x1 x2 y : R) :
  0 < x1 -> 0 < x2 -> y <> 0 -> float_pow x1 y = float_pow x2 y -> x1 = x2.
Proof.
  intros H1 H2 Hy. unfold float_pow.
  destruct (Rlt_dec 0 x1); [| contradiction].
  destruct (Rlt_dec 0 x2); [| contradiction].
  unfold Rpower. intro H. apply exp_inv in H.
  apply Rmult_eq_reg_l in H; [| exact Hy].
  apply ln_inv; assumption.
Qed.

Lemma calculate_h0_pos (Ac width height : R) :
  0 < Ac -> 0 < width -> 0 < height -> 0 < calculate_h0 Ac width height.
Proof.
  intros. unfold calculate_h0. apply Rdiv_lt_0_compat; lra.
Qed.

Lemma calculate_beta_fcm_pos (fcm : R) : 0 < fcm -> 0 < calculate_beta_fcm fcm.
Proof.
  intro H. unfold calculate_beta_fcm.
  apply Rdiv_lt_0_compat; [lra | apply float_pow_pos; exact H].
Qed.

Lemma calculate_phi_RH_pos (h0 fcm RH : R) :
  0 < h0 -> 0 < fcm -> RH <= 100 -> 0 < calculate_phi_RH h0 fcm RH.
Proof.
  intros Hh Hf HRH. unfold calculate_phi_RH.
  pose proof (float_pow_pos h0 (1 / 3) Hh) as Hp.
  assert (Hq : 0 <= (1 - RH / 100) / (0.1 * float_pow h0 (1 / 3))).
  { apply Rmult_le_pos; [lra |]. apply Rlt_le, Rinv_0_lt_compat. lra. }
  assert (H35 : 0 < 35 / fcm) by (apply Rdiv_lt_0_compat; lra).
  pose proof (float_pow_pos (35 / fcm) 0.7 H35) as Ha1.
  pose proof (float_pow_pos (35 / fcm) 0.2 H35) as Ha2.
  destruct (Rle_dec fcm 35); [lra |].
  apply Rmult_lt_0_compat; [| exact Ha2].
  assert (0 <= (1 - RH / 100) / (0.1 * float_pow h0 (1 / 3)) * float_pow (35 / fcm) 0.7)
    by (apply Rmult_le_pos; lra).
  lra.
Qed.

Lemma calculate_t0_adjusted_returns (t0 : R) (cement_class : string) :
  In cement_class ["S"; "N"; "R"] ->
  exists t0_adjusted,
    calculate_t0_adjusted t0 cement_class = Returns t0_adjusted /\ 0 < t0_adjusted.
Proof.
  intro H. simpl in H.
  assert (Hmax : forall x, 0 < Rmax x 0.5).
  { intro x. apply Rlt_le_trans with 0.5; [lra | apply Rmax_r]. }
  destruct H as [<- | [<- | [<- | []]]];
    (eexists; split; [reflexivity | apply Hmax]).
Qed.

Lemma calculate_beta_t0_pos (t0_adjusted : R) :
  0 < t0_adjusted -> 0 < calculate_beta_t0 t0_adjusted.
Proof.
  intro H. unfold calculate_beta_t0.
  pose proof (float_pow_pos t0_adjusted 0.20 H).
  apply Rdiv_lt_0_compat; lra.
Qed.

Lemma calculate_beta_c_eq (t0 t RH h0 fcm : R) :
  calculate_beta_c t0 t RH h0 fcm
  = float_pow ((t - t0) / (beta_H RH h0 fcm + t - t0)) 0.3.
Proof.
  unfold calculate_beta_c, beta_H. destruct (Rle_dec fcm 35); reflexivity.
Qed.

Lemma beta_H_pos (RH h0 fcm : R) :
  0 <= RH -> 0 < h0 -> 0 < fcm -> 0 < beta_H RH h0 fcm.
Proof.
  intros HRH Hh Hf. unfold beta_H.
  assert (Hp : 0 <= (0.012 * RH) ^ 18) by (apply pow_le; lra).
  assert (Hm : 0 < 1.5 * (1 + (0.012 * RH) ^ 18) * h0)
    by (apply Rmult_lt_0_compat; [lra | exact Hh]).
  assert (H35 : 0 < 35 / fcm) by (apply Rdiv_lt_0_compat; lra).
  pose proof (float_pow_pos (35 / fcm) 0.5 H35) as Ha3.
  destruct (Rle_dec fcm 35); apply Rmin_glb_lt; lra.
Qed.

(** The time-development factor separates two different loading ages. *)
Lemma calculate_beta_c_inj (t0 t0' t RH h0 fcm : R) :
  0 <= RH -> 0 < h0 -> 0 < fcm -> t0 < t -> t0' < t ->
  calculate_beta_c t0 t RH h0 fcm = calculate_beta_c t0' t RH h0 fcm -> t0 = t0'.
Proof.
  intros HRH Hh Hf Ht Ht'. rewrite !calculate_beta_c_eq.
  pose proof (beta_H_pos RH h0 fcm HRH Hh Hf) as Hb.
  set (bH := beta_H RH h0 fcm) in *.
  intro H. apply float_pow_inj in H;
    [| apply Rdiv_lt_0_compat; lra | apply Rdiv_lt_0_compat; lra | lra].
  assert (Hx : (t - t0) * (bH + t - t0') = (t - t0') * (bH + t - t0)).
  { apply (f_equal (fun x => x * (bH + t - t0) * (bH + t - t0'))) in H.
    field_simplify in H; lra. }
  nra.
Qed.

(** C2: the two creep numbers the class computes.  Each is the product of
    the standardized creep number of its own loading age with the one
    time-development factor of the self-load age; for distinct loading ages
    the live-load creep number therefore differs from the product with the
    factor of the live-load age. *)
Theorem live_load_creep_uses_self_load_age
    (Ac width height fcm t0_self t0_live RH : R) (cement_class : string) (t : R) :
  0 < Ac -> 0 < width -> 0 < height -> 0 < fcm -> 0 <= RH <= 100 ->
  t0_self < t -> t0_live < t -> t0_self <> t0_live ->
  In cement_class ["S"; "N"; "R"] ->
  exists c,
    init Ac width height fcm t0_self t0_live RH cement_class t = Returns c /\
    phi_selfload c = phi_0_self c * calculate_beta_c t0_self t RH (h0 c) fcm /\
    phi_liveload c = phi_0_live c * calculate_beta_c t0_self t RH (h0 c) fcm /\
    phi_liveload c <> phi_0_live c * calculate_beta_c t0_live t RH (h0 c) fcm.
Proof.
  intros HAc Hw Hh Hf [HRH0 HRH1] Hts Htl Hneq Hc.
  destruct (calculate_t0_adjusted_returns t0_self cement_class Hc) as [ts [Es Hts_pos]].
  destruct (calculate_t0_adjusted_returns t0_live cement_class Hc) as [tl [El Htl_pos]].
  unfold init. rewrite Es, El. cbn [bind].
  eexists. split; [reflexivity |]. cbn [phi_selfload phi_liveload phi_0_self phi_0_live h0].
  unfold calcualte_phi. repeat split.
  pose proof (calculate_h0_pos Ac width height HAc Hw Hh) as Hh0.
  set (h := calculate_h0 Ac width height) in *.
  assert (Hphi : 0 < calculate_phi_0 (calculate_phi_RH h fcm RH)
                       (calculate_beta_fcm fcm) (calculate_beta_t0 tl)).
  { unfold calculate_phi_0.
    apply Rmult_lt_0_compat; [apply Rmult_lt_0_compat |].
    - apply calculate_phi_RH_pos; assumption.
    - apply calculate_beta_fcm_pos; assumption.
    - apply calculate_beta_t0_pos; assumption. }
  intro H. apply Rmult_eq_reg_l in H; [| lra].
  apply Hneq. apply (calculate_beta_c_inj t0_self t0_live t RH h fcm); assumption.
Qed.

(** The default configuration: a 300 x 800 section of C30 (fcm = 38),
    self-load at 7 days, live-load at 90 days, 40 % humidity, cement R,
    50 years. *)
Lemma live_load_creep_uses_self_load_age_witness :
  exists c,
    init 240000 300 800 38 7 90 40 "R" 18263 = Returns c /\
    phi_selfload c = phi_0_self c * calculate_beta_c 7 18263 40 (h0 c) 38 /\
    phi_liveload c = phi_0_live c * calculate_beta_c 7 18263 40 (h0 c) 38 /\
    phi_liveload c <> phi_0_live c * calculate_beta_c 90 18263 40 (h0 c) 38.
Proof.
  apply (live_load_creep_uses_self_load_age 240000 300 800 38 7 90 40 "R" 18263);
    try lra; simpl; auto.
Defined.

(** An unknown cement class is a hard error. *)
Lemma unknown_cement_class_raises (Ac width height fcm t0_self t0_live RH t : R) :
  init Ac width height fcm t0_self t0_live RH "X" t = Raises ValueError.
Proof. reflexivity. Qed.

End Creep.

(** ** The crack width limit and the whole crack control *)

Section Crack_limit.

Import Crack_control.
Open Scope Q_scope.
Open Scope string_scope.

Lemma str_in_iff (x : string) (l : list string) : str_in x l = true <-> In x l.
Proof.
  unfold str_in. rewrite existsb_exists. split.
  - intros [y [Hy E]]. apply String.eqb_eq in E. subst. exact Hy.
  - intro H. exists x. split; [exact H | apply String.eqb_refl].
Qed.

(** A cover above the exposure minimum gives a ratio between 1 and 1.3. *)
Lemma calculate_kc_range (cnom c_min_dur : Q) :
  0 < c_min_dur -> c_min_dur < cnom ->
  1 < calculate_kc cnom c_min_dur /\ calculate_kc cnom c_min_dur <= 1.3.
Proof.
  intros Hd Hc. unfold calculate_kc.
  assert (Hr : 1 < cnom / c_min_dur).
  { apply Qlt_shift_div_l; [exact Hd | lra]. }
  destruct (Q.min_spec (cnom / c_min_dur) 1.3) as [[H1 H2] | [H1 H2]];
    rewrite H2; split; lra.
Qed.

(** The nominal cover exceeds the exposure minimum by at least 10 mm. *)
Lemma cnom_above_c_min_dur (c_min_b c_min_dur : Q) :
  c_min_dur + 10 <= Cross_section.calculate_cnom c_min_b c_min_dur.
Proof.
  unfold Cross_section.calculate_cnom.
  pose proof (Q.le_max_l (Qmax c_min_b c_min_dur) 10).
  pose proof (Q.le_max_r c_min_b c_min_dur).
  lra.
Qed.

Lemma crack_width_of_X0 (bar_diameter : Q) :
  crack_width_of bar_diameter "X0" = Returns 0.4.
Proof. reflexivity. Qed.

(** For a class with a fixed exposure minimum the limit is [0.3 * k_c]. *)
Lemma crack_width_of_group (bar_diameter : Q) (exposure_class : string) (m : Q) :
  In exposure_class list_of_exp_class ->
  Cross_section.group_minimum exposure_class = Some m -> 0 < m ->
  exists w, crack_width_of bar_diameter exposure_class = Returns w /\
            w == 0.3 * calculate_kc
                   (Cross_section.calculate_cnom (Cross_section.get_c_min_b bar_diameter) m) m /\
            0.3 < w /\ w <= 0.39.
Proof.
  intros Hin Hm Hpos.
  assert (Hcov : Cross_section.get_c_min_dur exposure_class
                   (Cross_section.get_c_min_b bar_diameter) = Returns m).
  { simpl in Hin.
    repeat (destruct Hin as [<- | Hin];
            [vm_compute in Hm; injection Hm as <-; reflexivity |]).
    contradiction. }
  assert (Hlim : forall k, get_limit_value exposure_class k = Returns (0.3 * k)).
  { intro k. simpl in Hin.
    repeat (destruct Hin as [<- | Hin]; [reflexivity |]). contradiction. }
  unfold crack_width_of, Cross_section.init_cover. rewrite Hcov. cbn [bind].
  cbn [Cross_section.cnom Cross_section.c_min_dur]. rewrite Hlim.
  eexists. split; [reflexivity |]. split; [reflexivity |].
  pose proof (cnom_above_c_min_dur (Cross_section.get_c_min_b bar_diameter) m) as Hc.
  destruct (calculate_kc_range
              (Cross_section.calculate_cnom (Cross_section.get_c_min_b bar_diameter) m) m)
    as [H1 H2]; [exact Hpos | lra |].
  split; lra.
Qed.

(** Every recognized class gives a limit inside the rows of the table. *)
Lemma crack_width_of_in_rows (bar_diameter : Q) (exposure_class : string) :
  In exposure_class Cross_section.recognized ->
  exists w, crack_width_of bar_diameter exposure_class = Returns w /\
            0.3 < w /\ w <= 0.4.
Proof.
  intro Hin. simpl in Hin. destruct Hin as [<- | Hin].
  - exists 0.4. split; [reflexivity | split; lra].
  - assert (Hg : exists m, Cross_section.group_minimum exposure_class = Some m /\ 0 < m /\
                           In exposure_class list_of_exp_class).
    { repeat (destruct Hin as [<- | Hin];
              [eexists; split; [reflexivity | split; [lra | simpl; tauto]] |]).
      contradiction. }
    destruct Hg as [m [Hm [Hpos Hl]]].
    destruct (crack_width_of_group bar_diameter exposure_class m Hl Hm Hpos)
      as [w [E [_ [H1 H2]]]].
    exists w. split; [exact E | split; lra].
Qed.

(** X1: for every recognized exposure class and every bar diameter the
    crack width limit is computed without error; it is 0.4 for X0 and
    0.3 * k_c, strictly above 0.3 and at most 0.39, for every other class. *)
Theorem crack_width_limit_range (bar_diameter : Q) (exposure_class : string) :
  In exposure_class Cross_section.recognized ->
  exists w, crack_width_of bar_diameter exposure_class = Returns w /\
            (exposure_class = "X0" -> w = 0.4) /\
            (exposure_class <> "X0" -> 0.3 < w /\ w <= 0.39).
Proof.
  intro Hin. simpl in Hin. destruct Hin as [<- | Hin].
  - exists 0.4. split; [reflexivity |]. split; [reflexivity | congruence].
  - assert (Hg : exists m, Cross_section.group_minimum exposure_class = Some m /\ 0 < m /\
                           In exposure_class list_of_exp_class /\ exposure_class <> "X0").
    { repeat (destruct Hin as [<- | Hin];
              [eexists; split; [reflexivity | split; [lra | split; [simpl; tauto | discriminate]]] |]).
      contradiction. }
    destruct Hg as [m [Hm [Hpos [Hl Hne]]]].
    destruct (crack_width_of_group bar_diameter exposure_class m Hl Hm Hpos)
      as [w [E [_ [H1 H2]]]].
    exists w. split; [exact E |]. split; [congruence | auto].
Qed.

Lemma crack_width_limit_range_witness :
  exists w, crack_width_of 20 "XC1" = Returns w /\
            ("XC1" = "X0" -> w = 0.4) /\
            ("XC1" <> "X0" -> 0.3 < w /\ w <= 0.39).
Proof.
  apply (crack_width_limit_range 20 "XC1"). simpl. tauto.
Defined.

(** X2: the whole crack control, from the bar diameter, the exposure class
    and the reinforcement stress: for a recognized class it returns a
    boolean when the stress is below 450 and the message when it is above
    450; it never raises there. *)
Theorem crack_control_outcome (bar_diameter : Q) (exposure_class : string) (sigma_s : Q) :
  In exposure_class Cross_section.recognized ->
  (sigma_s < 450 -> exists b, check_of bar_diameter exposure_class sigma_s = Returns (Bool b)) /\
  (450 < sigma_s ->
     check_of bar_diameter exposure_class sigma_s = Returns (Message not_executed)).
Proof.
  intro Hin.
  destruct (crack_width_of_in_rows bar_diameter exposure_class Hin) as [w [E [H1 H2]]].
  unfold check_of. rewrite E. cbn [bind]. split; intro Hs.
  - apply check_inside_table; lra.
  - apply check_above_table. exact Hs.
Qed.

Lemma crack_control_outcome_witness :
  exists b, check_of 20 "XC1" 200 = Returns (Bool b).
Proof.
  refine (proj1 (crack_control_outcome 20 "XC1" 200 _) _); [simpl; tauto | lra].
Defined.

Lemma get_c_min_dur_raises_iff (exposure_class : string) (c_min_b : Q) :
  Cross_section.get_c_min_dur exposure_class c_min_b = Raises ValueError
  <-> str_in exposure_class Cross_section.recognized = false.
Proof.
  unfold Cross_section.get_c_min_dur, Cross_section.recognized, str_in.
  cbn [existsb].
  repeat match goal with
  | |- context [String.eqb exposure_class ?x] =>
      destruct (String.eqb exposure_class x); cbn [orb]
  end;
  split; intro H; try reflexivity; discriminate H.
Qed.

Lemma get_limit_value_raises_iff (exposure_class : string) (k_c : Q) :
  get_limit_value exposure_class k_c = Raises ValueError
  <-> str_in exposure_class Cross_section.recognized = false.
Proof.
  unfold get_limit_value, list_of_exp_class, Cross_section.recognized, str_in.
  cbn [existsb].
  repeat match goal with
  | |- context [String.eqb exposure_class ?x] =>
      destruct (String.eqb exposure_class x); cbn [orb]
  end;
  split; intro H; try reflexivity; discriminate H.
Qed.

(** X3: the cover table and the crack width table accept the same exposure
    classes: each raises its ValueError exactly for a class outside the
    eleven recognized ones, so one never fails where the other succeeds. *)
Theorem exposure_class_tables_agree (exposure_class : string) (c_min_b k_c : Q) :
  (Cross_section.get_c_min_dur exposure_class c_min_b = Raises ValueError
     <-> ~ In exposure_class Cross_section.recognized) /\
  (get_limit_value exposure_class k_c = Raises ValueError
     <-> ~ In exposure_class Cross_section.recognized).
Proof.
  rewrite get_c_min_dur_raises_iff, get_limit_value_raises_iff.
  rewrite <- str_in_iff, not_true_iff_false. tauto.
Qed.

End Crack_limit.

(** ** Deflection: tension stiffening and drying shrinkage *)

Section Deflection_extra.

Import Deflection.
Open Scope Q_scope.




(** Evaluates the constant slope of an interpolation. *)
Ltac eval_slope :=
  match goal with
  | |- context [(?x - ?y) / (?u - ?v)] =>
      let q := eval vm_compute in (Qred ((x - y) / (u - v))) in
      setoid_replace ((x - y) / (u - v)) with q by (vm_compute; reflexivity)
  end.

(** The interpolation of [k_h] written out case by case. *)
Lemma interpolate_k_h_inside (h_0 : Q) :
  100 <= h_0 -> h_0 <= 500 ->
  exists k_h, interpolate_k_h h_0 = Some k_h /\ 0.7 <= k_h /\ k_h <= 1.
Proof.
  intros Hlo Hhi. unfold interpolate_k_h.
  change (seq 0 (List.length h_0_vector - 1)) with [0%nat; 1%nat; 2%nat].
  cbn [fold_left]. unfold k_h_step, h_0_at, k_h_at.
  cbn [nth h_0_vector k_h_vector Nat.add].
  destruct (Qle_bool h_0 500 && Qle_bool 300 h_0) eqn:E2.
  { eexists. split; [reflexivity |]. reflect_Q. eval_slope. split; lra. }
  destruct (Qle_bool h_0 300 && Qle_bool 200 h_0) eqn:E1.
  { eexists. split; [reflexivity |]. reflect_Q. eval_slope. split; lra. }
  destruct (Qle_bool h_0 200 && Qle_bool 100 h_0) eqn:E0.
  { eexists. split; [reflexivity |]. reflect_Q. eval_slope. split; lra. }
  exfalso.
  apply andb_false_iff in E2. apply andb_false_iff in E1. apply andb_false_iff in E0.
  destruct E2 as [E2 | E2]; destruct E1 as [E1 | E1]; destruct E0 as [E0 | E0];
    reflect_Q; lra.
Qed.

Lemma interpolate_k_h_outside (h_0 : Q) :
  h_0 < 100 \/ 500 < h_0 -> interpolate_k_h h_0 = None.
Proof.
  intro H. unfold interpolate_k_h.
  change (seq 0 (List.length h_0_vector - 1)) with [0%nat; 1%nat; 2%nat].
  cbn [fold_left]. unfold k_h_step, h_0_at, k_h_at.
  cbn [nth h_0_vector k_h_vector Nat.add].
  assert (E0 : Qle_bool h_0 200 && Qle_bool 100 h_0 = false).
  { apply andb_false_iff. destruct H; [right | left]; apply Qle_bool_false_iff; lra. }
  assert (E1 : Qle_bool h_0 300 && Qle_bool 200 h_0 = false).
  { apply andb_false_iff. destruct H; [right | left]; apply Qle_bool_false_iff; lra. }
  assert (E2 : Qle_bool h_0 500 && Qle_bool 300 h_0 = false).
  { apply andb_false_iff. destruct H; [right | left]; apply Qle_bool_false_iff; lra. }
  rewrite E0, E1, E2. reflexivity.
Qed.

(** X7: for an effective thickness between 100 and 500 mm the drying
    shrinkage is [k_h * eps_cd0] with a size coefficient [k_h] between 0.7
    and 1. *)
Theorem eps_cd_inside_table (eps_cd0 Ac width height : Q) :
  100 <= 2 * Ac / (2 * width + 2 * height) ->
  2 * Ac / (2 * width + 2 * height) <= 500 ->
  exists k_h,
    calculate_eps_cd eps_cd0 Ac width height = Returns (1 * k_h * eps_cd0) /\
    0.7 <= k_h /\ k_h <= 1.
Proof.
  intros Hlo Hhi. unfold calculate_eps_cd.
  destruct (interpolate_k_h_inside _ Hlo Hhi) as [k_h [-> Hk]].
  exists k_h. split; [reflexivity | exact Hk].
Qed.

(** The default section, 300 x 800 mm: the effective thickness is about
    218 mm. *)
Lemma eps_cd_inside_table_witness :
  exists k_h,
    calculate_eps_cd 0.0004 240000 300 800 = Returns (1 * k_h * 0.0004) /\
    0.7 <= k_h /\ k_h <= 1.
Proof.
  apply (eps_cd_inside_table 0.0004 240000 300 800); unfold Qle; simpl; lia.
Defined.

(** X8: for a section with a perimeter other than zero and an effective
    thickness below 100 mm or above 500 mm no interval of the table
    matches, the size coefficient is never assigned and the drying
    shrinkage raises UnboundLocalError. *)
Theorem eps_cd_outside_table (eps_cd0 Ac width height : Q) :
  ~ 2 * width + 2 * height == 0 ->
  2 * Ac / (2 * width + 2 * height) < 100 \/
  500 < 2 * Ac / (2 * width + 2 * height) ->
  calculate_eps_cd eps_cd0 Ac width height = Raises UnboundLocalError.
Proof.
  intros _ H. unfold calculate_eps_cd.
  rewrite (interpolate_k_h_outside _ H). reflexivity.
Qed.

(** A slender 150 x 200 mm section: the effective thickness is about
    86 mm. *)
Lemma eps_cd_outside_table_witness :
  calculate_eps_cd 0.0004 30000 150 200 = Raises UnboundLocalError.
Proof.
  apply (eps_cd_outside_table 0.0004 30000 150 200).
  - intro H. vm_compute in H. discriminate H.
  - left. unfold Qlt; simpl; lia.
Defined.

End Deflection_extra.

(** ** The mean modulus of elasticity *)

Section Mean_modulus.

Import Crack_control.
Open Scope Q_scope.




End Mean_modulus.

(** ** Material tables *)

Section Material_tables.

Import Material.
Open Scope Q_scope.
Open Scope string_scope.

Lemma match_name_in (name : string) (cases : list (string * nat)) (idx : nat) :
  match_name name cases = Some idx -> In (name, idx) cases.
Proof.
  induction cases as [| [lit i] rest IH]; simpl; intro H.
  - discriminate H.
  - destruct (String.eqb name lit) eqn:E.
    + apply String.eqb_eq in E. injection H as <-. subst. left. reflexivity.
    + right. apply IH. exact H.
Qed.

Lemma match_diameter_in (d : Q) (cases : list (Q * nat)) (idx : nat) :
  match_diameter d cases = Some idx -> In idx (map snd cases).
Proof.
  induction cases as [| [lit i] rest IH]; simpl; intro H.
  - discriminate H.
  - destruct (Qeq_bool d lit).
    + injection H as <-. left. reflexivity.
    + right. apply IH. exact H.
Qed.

(** X10: for every concrete class the table accepts, the index is inside
    all the tables, the mean strength is [fck + 8], the strengths are
    ordered ([fck <= fck_cube], [fctk_005 < fctm < fctk_095]), the design
    strength is [fck * 0.85 / 1.5] and positive, the ultimate strain is
    positive, and both [lambda] and [netta] are assigned, with
    [0.79 < lambda <= 0.8] and [0.99 < netta <= 1]. *)
Theorem concrete_class_properties (concrete_class : string) (c : concrete) :
  init_concrete concrete_class = Returns c ->
  In concrete_class (map fst cases_concrete) /\
  fcm c == fck c + 8 /\ fck c <= fck_cube c /\
  fctk_005 c < fctm c /\ fctm c < fctk_095 c /\
  fcd c == fck c * 0.85 / 1.5 /\ 0 < fcd c /\ 0 < eps_cu3 c /\
  exists l n, lambda_factor c = Some l /\ netta c = Some n /\
              0.79 < l /\ l <= 0.8 /\ 0.99 < n /\ n <= 1.
Proof.
  unfold init_concrete, get_index.
  destruct (match_name concrete_class cases_concrete) as [idx |] eqn:E;
    [| discriminate].
  apply match_name_in in E. cbn [bind]. intro H. injection H as <-.
  simpl in E.
  repeat (destruct E as [E | E];
          [injection E as <- <-;
           split; [simpl; tauto |];
           repeat (split; [vm_compute; first [reflexivity | discriminate] |]);
           eexists; eexists;
           split; [vm_compute; reflexivity |];
           split; [vm_compute; reflexivity |];
           repeat split; vm_compute; first [reflexivity | discriminate] |]).
  contradiction.
Qed.

Lemma concrete_class_properties_witness :
  exists c, init_concrete "C30" = Returns c /\ fcm c == fck c + 8 /\ 0 < fcd c.
Proof.
  eexists. split; [reflexivity |].
  pose proof (concrete_class_properties "C30" _ eq_refl) as H.
  split; [exact (proj1 (proj2 H)) |].
  exact (proj1 (proj2 (proj2 (proj2 (proj2 (proj2 (proj2 H))))))).
Defined.

(** X11: the concrete lookup raises its ValueError exactly for a class that
    is not one of the fourteen of the table. *)
Theorem unknown_concrete_class_raises (concrete_class : string) :
  init_concrete concrete_class = Raises ValueError
  <-> ~ In concrete_class (map fst cases_concrete).
Proof.
  unfold init_concrete, get_index. split.
  - destruct (match_name concrete_class cases_concrete) as [idx |] eqn:E.
    + cbn [bind]. discriminate.
    + intros _ Hin. simpl in Hin.
      repeat (destruct Hin as [<- | Hin]; [vm_compute in E; discriminate E |]).
      contradiction.
  - intro H. rewrite (match_name_unlisted _ _ H). reflexivity.
Qed.

(** X12: every index the strand lookup returns is inside the four strand
    tables, which have 23 entries each, and gives strictly positive values
    of all six strand properties. *)
Theorem strand_index_in_range (prestress_name : option string) (prestress_diameter : Q)
    (idx : nat) :
  get_index_prestress prestress_name prestress_diameter = Some idx ->
  let m := init_prestress prestress_name prestress_diameter in
  (idx < List.length fpk_table)%nat /\ (idx < List.length Ap_table)%nat /\
  (idx < List.length Fpk_table)%nat /\ (idx < List.length Fp01k_table)%nat /\
  0 < fpk m /\ 0 < Ap_strand m /\ 0 < Fpk m /\ 0 < Fp01k m /\ 0 < fp01k m /\ 0 < fpd m.
Proof.
  intros H m. subst m. unfold init_prestress. rewrite H.
  assert (Hin : In idx (seq 0 23)).
  { unfold get_index_prestress in H.
    destruct prestress_name as [name |]; [| discriminate H].
    destruct (String.eqb name "Y1860S3");
      [apply match_diameter_in in H; simpl in H;
       repeat (destruct H as [<- | H]; [simpl; tauto |]); contradiction |].
    destruct (String.eqb name "Y1860S7");
      [apply match_diameter_in in H; simpl in H;
       repeat (destruct H as [<- | H]; [simpl; tauto |]); contradiction |].
    destruct (String.eqb name "Y1770S7");
      [apply match_diameter_in in H; simpl in H;
       repeat (destruct H as [<- | H]; [simpl; tauto |]); contradiction |].
    apply match_name_in in H. simpl in H.
    repeat (destruct H as [H | H]; [injection H as _ <-; simpl; tauto |]).
    contradiction. }
  clear H. simpl in Hin.
  repeat (destruct Hin as [<- | Hin];
          [repeat split; first [simpl; lia | vm_compute; reflexivity] |]).
  contradiction.
Qed.

Lemma strand_index_in_range_witness :
  let m := init_prestress (Some "Y1770S7") 15.2 in
  (11 < List.length fpk_table)%nat /\ (11 < List.length Ap_table)%nat /\
  (11 < List.length Fpk_table)%nat /\ (11 < List.length Fp01k_table)%nat /\
  0 < fpk m /\ 0 < Ap_strand m /\ 0 < Fpk m /\ 0 < Fp01k m /\ 0 < fp01k m /\ 0 < fpd m.
Proof.
  apply (strand_index_in_range (Some "Y1770S7") 15.2 11). reflexivity.
Defined.

End Material_tables.

(** ** Loads *)

Section Loads.

Import Load_properties.
Open Scope Q_scope.



(** X14: when the strand lookup finds no index (the name is absent, unknown
    or paired with an unlisted diameter), the prestress area, the prestress
    stress, the prestress force and the prestress moment of the load model
    are all zero, whatever the number of strands and the eccentricity. *)
Theorem no_strand_no_prestress (prestress_name : option string)
    (prestress_diameter nr_prestressed_bars selfload liveload length e : Q) :
  Material.get_index_prestress prestress_name prestress_diameter = None ->
  let m := Material.init_prestress prestress_name prestress_diameter in
  let Ap := Cross_section.calculate_Ap nr_prestressed_bars (Material.Ap_strand m) in
  let l := init selfload liveload length (Material.fpk m) (Material.fp01k m) Ap e in
  Ap == 0 /\ sigma_p_max l == 0 /\ P0_d l == 0 /\ M_prestress l == 0.
Proof.
  intros H m Ap l. subst l Ap m.
  rewrite (init_prestress_no_index _ _ H).
  cbn [Material.Ap_strand Material.fpk Material.fp01k].
  unfold init. cbn [sigma_p_max P0_d M_prestress].
  unfold Cross_section.calculate_Ap, calculate_M_prestressed, calculate_P0_max,
    calculate_sigma_p_max.
  assert (Hmin : Qmin (0.8 * 0) (0.9 * 0) == 0) by (vm_compute; reflexivity).
  rewrite Hmin. repeat split; ring.
Qed.

Lemma no_strand_no_prestress_witness :
  let m := Material.init_prestress None 0 in
  let Ap := Cross_section.calculate_Ap 0 (Material.Ap_strand m) in
  let l := init 5 30 10 (Material.fpk m) (Material.fp01k m) Ap 300 in
  Ap == 0 /\ sigma_p_max l == 0 /\ P0_d l == 0 /\ M_prestress l == 0.
Proof.
  apply (no_strand_no_prestress None 0 0 5 30 10 300). reflexivity.
Defined.

End Loads.

(** ** Stresses of the prestressed section *)

Section Prestressed_stress.

Import Stress.
Open Scope Q_scope.




(** X16: the stress left in the strands never exceeds the initial stress
    minus the time-dependent loss, in the uncracked state (for a positive
    concrete modulus and a non-negative strand modulus) and in the cracked
    state (for a mean modulus and a factor other than zero, which the
    strain divides by). *)
Theorem strand_stress_at_most_initial_minus_loss
    (sigma_c_prestress Ecm Ep sigma_p_max loss eps_cs alpha sigma_c_cracked E_middle : Q) :
  0 < Ecm -> 0 <= Ep -> ~ E_middle == 0 -> ~ alpha == 0 ->
  calculate_reinforcement_stress_uncracked sigma_c_prestress Ecm Ep sigma_p_max loss
    <= sigma_p_max - loss /\
  calculate_reinforcement_stress_cracked eps_cs Ep loss alpha sigma_p_max
      sigma_c_cracked E_middle
    <= sigma_p_max - loss.
Proof.
  intros HE HEp _ _.
  unfold calculate_reinforcement_stress_uncracked, calculate_reinforcement_stress_cracked.
  split.
  - pose proof (Qabs_nonneg sigma_c_prestress) as Ha.
    assert (H1 : 0 <= Qabs sigma_c_prestress / Ecm) by (apply Qle_shift_div_l; lra).
    assert (H2 : 0 <= Qabs sigma_c_prestress / Ecm * Ep) by (apply Qmult_le_0_compat; lra).
    set (x := Qabs sigma_c_prestress / Ecm * Ep) in *. clearbody x. lra.
  - match goal with |- context [Qabs ?t] => pose proof (Qabs_nonneg t) as Ha;
      set (x := Qabs t) in *; clearbody x end.
    lra.
Qed.

Lemma strand_stress_at_most_initial_minus_loss_witness :
  calculate_reinforcement_stress_uncracked (-5) 33000 195000 1400 200 <= 1400 - 200 /\
  calculate_reinforcement_stress_cracked 0.0003 195000 200 0.4 1400 (-12) 11000
    <= 1400 - 200.
Proof.
  apply (strand_stress_at_most_initial_minus_loss (-5) 33000 195000 1400 200
           0.0003 0.4 (-12) 11000);
    first [lra | intro H; vm_compute in H; discriminate H].
Defined.

(** X17: what the stress control accepts.  For a non-negative [fck] it
    returns [True] exactly when the stress it looks at (the cracked stress
    when cracked, the first entry of the uncracked list otherwise) is
    non-negative and below [fctm]; every compressive stress is rejected. *)
Theorem stress_control_accepts (fck fctm sigma_c_cracked top : Q) (rest : list Q) :
  0 <= fck ->
  (control_stress fck fctm true sigma_c_cracked (top :: rest) = Some true
     <-> 0 <= sigma_c_cracked /\ sigma_c_cracked < fctm) /\
  (control_stress fck fctm false sigma_c_cracked (top :: rest) = Some true
     <-> 0 <= top /\ top < fctm).
Proof.
  intro Hf.
  assert (Hw : forall sigma, within (0.6 * fck) fctm sigma = true
                             <-> 0 <= sigma /\ sigma < fctm).
  { intro sigma. destruct (Qlt_le_dec sigma 0) as [Hn | Hp].
    - rewrite (compression_never_passes fck fctm sigma Hf Hn).
      split; [discriminate | intros [H _]; exfalso; lra].
    - rewrite (tension_passes_iff fck fctm sigma Hp). tauto. }
  unfold control_stress. split; (split; [intro H; injection H as H | intro H; f_equal]);
    apply Hw; assumption.
Qed.

Lemma stress_control_accepts_witness :
  (control_stress 30 2.9 true 1 [-4; 1; -2] = Some true <-> 0 <= 1 /\ 1 < 2.9) /\
  (control_stress 30 2.9 false 1 [-4; 1; -2] = Some true <-> 0 <= -4 /\ -4 < 2.9).
Proof.
  apply (stress_control_accepts 30 2.9 1 (-4) [1; -2]). lra.
Defined.

End Prestressed_stress.

(** ** The cracked ordinary section *)

Section Cracked_ordinary.

Import Cracked_section.
Open Scope R_scope.

(** The closed form [sqrt (x^2 + 2 x) - x] for a positive [x]. *)
Lemma cracked_factor (x : R) :
  0 < x ->
  let alpha := sqrt (x ^ 2 + 2 * x) - x in
  0 < alpha < 1 /\ alpha ^ 2 / 2 = x * (1 - alpha).
Proof.
  intros Hx alpha. subst alpha.
  assert (Hlo : x < sqrt (x ^ 2 + 2 * x)).
  { rewrite <- (sqrt_pow2 x) at 1 by lra.
    apply sqrt_lt_1_alt. split; [apply pow2_ge_0 | nra]. }
  assert (Hhi : sqrt (x ^ 2 + 2 * x) < x + 1).
  { rewrite <- (sqrt_pow2 (x + 1)) by lra.
    apply sqrt_lt_1_alt. split; nra. }
  assert (Hsq : sqrt (x ^ 2 + 2 * x) ^ 2 = x ^ 2 + 2 * x).
  { rewrite <- Rsqr_pow2. apply Rsqr_sqrt. nra. }
  split; [lra |].
  set (s := sqrt (x ^ 2 + 2 * x)) in *. clearbody s. nra.
Qed.



(** X20: with the factor of the cracked section and a positive moment, the
    reinforcement stress of the crack control is well defined (the cracked
    stiffness it divides by is positive) and positive. *)
Theorem reinforcement_stress_positive (M Es Ec_middle As width d : R) :
  0 < M -> 0 < Es -> 0 < Ec_middle -> 0 < As -> 0 < width -> 0 < d ->
  let alpha := calculate_alpha Es Ec_middle As width d in
  0 < Ec_middle * ((width * (alpha * d) ^ 3) / 3) + Es * (As * ((1 - alpha) * d) ^ 2) /\
  0 < calculate_reinforcement_stress alpha width d M Ec_middle Es As.
Proof.
  intros HM HEs HEc HAs Hw Hd alpha.
  assert (Hx : 0 < Es / Ec_middle * (As / (width * d))).
  { apply Rmult_lt_0_compat; apply Rdiv_lt_0_compat; try assumption.
    apply Rmult_lt_0_compat; assumption. }
  destruct (cracked_factor _ Hx) as [[Ha0 Ha1] _].
  replace (2 * (Es / Ec_middle * (As / (width * d))))
    with (2 * (Es / Ec_middle) * (As / (width * d))) in Ha0, Ha1 by ring.
  change (0 < alpha) in Ha0. change (alpha < 1) in Ha1. clearbody alpha.
  assert (H3 : 0 < (alpha * d) ^ 3).
  { apply pow_lt. apply Rmult_lt_0_compat; assumption. }
  assert (H2 : 0 < ((1 - alpha) * d) ^ 2).
  { apply pow_lt. apply Rmult_lt_0_compat; lra. }
  assert (HEI : 0 < Ec_middle * ((width * (alpha * d) ^ 3) / 3)
                    + Es * (As * ((1 - alpha) * d) ^ 2)).
  { apply Rplus_lt_0_compat.
    - apply Rmult_lt_0_compat; [exact HEc |].
      apply Rdiv_lt_0_compat; [apply Rmult_lt_0_compat; assumption | lra].
    - apply Rmult_lt_0_compat; [exact HEs |]. apply Rmult_lt_0_compat; assumption. }
  split; [exact HEI |].
  unfold calculate_reinforcement_stress.
  apply Rdiv_lt_0_compat; [| exact HEI].
  apply Rmult_lt_0_compat; [exact HEs |].
  apply Rmult_lt_0_compat; [| exact Hd].
  apply Rmult_lt_0_compat; [| lra].
  apply Rmult_lt_0_compat; [exact HM | apply pow_lt; lra].
Qed.

Lemma reinforcement_stress_positive_witness :
  let alpha := calculate_alpha 200000 11000 1256 300 750 in
  0 < 11000 * ((300 * (alpha * 750) ^ 3) / 3) + 200000 * (1256 * ((1 - alpha) * 750) ^ 2) /\
  0 < calculate_reinforcement_stress alpha 300 750 637.5 11000 200000 1256.
Proof.
  apply (reinforcement_stress_positive 637.5 200000 11000 1256 300 750); lra.
Defined.

End Cracked_ordinary.

(** ** The ordinary ULS solver: balance, capacity and necessary area *)

Section Ordinary_capacity.

Open Scope R_scope.

Variables eps_cu3 eps_yd Es fcd width d fyd lambda_factor netta : R.
Hypothesis eps_cu3_pos : 0 < eps_cu3.
Hypothesis Es_pos : 0 < Es.
Hypothesis fcd_pos : 0 < fcd.
Hypothesis width_pos : 0 < width.
Hypothesis d_pos : 0 < d.
Hypothesis fyd_pos : 0 < fyd.
Hypothesis lambda_pos : 0 < lambda_factor.
Hypothesis netta_pos : 0 < netta.
Hypothesis yield_strain : eps_yd = fyd / Es.

Let a := lambda_factor * netta * fcd * width * d.
Let ab := ULS.alpha_bal eps_cu3 eps_yd.
Let As_bal := ULS.As_balanced eps_cu3 eps_yd fcd width d fyd lambda_factor netta.

Lemma eps_yd_pos' : 0 < eps_yd.
Proof. rewrite yield_strain. apply Rdiv_lt_0_compat; assumption. Qed.

Lemma a_pos' : 0 < a.
Proof. unfold a. repeat apply Rmult_lt_0_compat; assumption. Qed.


(** At the balanced area the balanced factor solves the quadratic. *)
Lemma balance_equation : a * ab ^ 2 = eps_cu3 * Es * As_bal * (1 - ab).
Proof.
  pose proof a_pos' as Ha. pose proof eps_yd_pos' as Hy.
  unfold As_bal, ULS.As_balanced. fold a. unfold ab, ULS.alpha_bal.
  rewrite yield_strain. unfold a. field. repeat split; try lra.
  assert (0 < eps_cu3 * Es + fyd) by nra. lra.
Qed.

(** The larger root solves the quadratic of the over-reinforced branch. *)
Lemma root_plus_solves (b : R) :
  0 < b ->
  a * ULS.root_plus a b (- b) ^ 2 = b * (1 - ULS.root_plus a b (- b)).
Proof.
  intro Hb. pose proof a_pos' as Ha. unfold ULS.root_plus.
  assert (Hsq : sqrt (b ^ 2 - 4 * a * - b) ^ 2 = b ^ 2 - 4 * a * - b).
  { rewrite <- Rsqr_pow2. apply Rsqr_sqrt. nra. }
  set (s := sqrt (b ^ 2 - 4 * a * - b)) in *. clearbody s.
  apply (Rmult_eq_reg_l (4 * a)); [| lra].
  replace (4 * a * (a * ((- b + s) / (2 * a)) ^ 2)) with ((- b + s) ^ 2) by (field; lra).
  replace (4 * a * (b * (1 - (- b + s) / (2 * a)))) with (4 * a * b - 2 * b * (- b + s))
    by (field; lra).
  nra.
Qed.

Lemma calculate_alpha_over (As : R) :
  As_bal < As ->
  ULS.calculate_alpha eps_cu3 eps_yd As Es fcd width d fyd lambda_factor netta
  = ULS.root_plus a (eps_cu3 * Es * As) (- (eps_cu3 * Es * As)).
Proof.
  intro H. unfold ULS.calculate_alpha. fold As_bal.
  destruct (Rle_dec As As_bal); [lra |].
  apply alpha_over_eq; assumption.
Qed.

Lemma calculate_alpha_under (As : R) :
  As <= As_bal ->
  ULS.calculate_alpha eps_cu3 eps_yd As Es fcd width d fyd lambda_factor netta
  = fyd * As / a.
Proof.
  intro H. unfold ULS.calculate_alpha. fold As_bal.
  destruct (Rle_dec As As_bal); [reflexivity | contradiction].
Qed.


Lemma calculate_alpha_range (As : R) :
  0 < As ->
  0 < ULS.calculate_alpha eps_cu3 eps_yd As Es fcd width d fyd lambda_factor netta < 1.
Proof.
  intro HAs. unfold ULS.calculate_alpha.
  destruct (Rle_dec As (ULS.As_balanced eps_cu3 eps_yd fcd width d fyd lambda_factor netta)).
  - apply alpha_under_in_unit_interval with (eps_cu3 := eps_cu3) (eps_yd := eps_yd);
      try assumption. exact eps_yd_pos'.
  - apply alpha_over_in_unit_interval; assumption.
Qed.

End Ordinary_capacity.

(** ** The balance point of the ordinary-reinforced solver *)

Section Balance_point.

Open Scope R_scope.

Variables eps_cu3 eps_yd Es fcd width d fyd lambda_factor netta : R.
Hypothesis eps_cu3_pos : 0 < eps_cu3.
Hypothesis eps_yd_pos : 0 < eps_yd.
Hypothesis Es_pos : 0 < Es.
Hypothesis fcd_pos : 0 < fcd.
Hypothesis width_pos : 0 < width.
Hypothesis d_pos : 0 < d.
Hypothesis fyd_pos : 0 < fyd.
Hypothesis lambda_pos : 0 < lambda_factor.
Hypothesis netta_pos : 0 < netta.

Let a := lambda_factor * netta * fcd * width * d.
Let ab := ULS.alpha_bal eps_cu3 eps_yd.
Let As_bal := ULS.As_balanced eps_cu3 eps_yd fcd width d fyd lambda_factor netta.

Lemma balanced_area_pos : 0 < As_bal.
Proof.
  pose proof (zone_force_pos fcd width d lambda_factor netta
                fcd_pos width_pos d_pos lambda_pos netta_pos) as Ha.
  pose proof (alpha_bal_in_unit_interval eps_cu3 eps_yd eps_cu3_pos eps_yd_pos) as [Hb _].
  unfold As_bal. rewrite As_balanced_eq by assumption.
  apply Rdiv_lt_0_compat; [apply Rmult_lt_0_compat |]; assumption.
Qed.

(** The larger root at the balanced area is the balanced factor only for
    the yield strain [fyd / Es]. *)
Lemma alpha_over_at_balance_only :
  ULS.alpha_over eps_cu3 As_bal Es fcd width d lambda_factor netta = ab ->
  eps_yd = fyd / Es.
Proof.
  intro H.
  pose proof (zone_force_pos fcd width d lambda_factor netta
                fcd_pos width_pos d_pos lambda_pos netta_pos) as Ha.
  pose proof (alpha_bal_in_unit_interval eps_cu3 eps_yd eps_cu3_pos eps_yd_pos) as [Hb0 Hb1].
  pose proof balanced_area_pos as HAs.
  fold a in Ha. fold ab in Hb0, Hb1.
  rewrite alpha_over_eq in H by assumption. fold a in H.
  assert (Hk : 0 < eps_cu3 * Es * As_bal)
    by (apply Rmult_lt_0_compat; [apply Rmult_lt_0_compat |]; assumption).
  pose proof (root_plus_solves fcd width d lambda_factor netta
                fcd_pos width_pos d_pos lambda_pos netta_pos _ Hk) as Hroot.
  fold a in Hroot. rewrite H in Hroot.
  assert (HA : As_bal * fyd = a * ab).
  { unfold As_bal. rewrite As_balanced_eq by assumption. fold a ab. field. lra. }
  assert (Hm : fyd * ab = eps_cu3 * Es * (1 - ab)).
  { apply (Rmult_eq_reg_l (a * ab)); [| nra].
    transitivity (fyd * (a * ab ^ 2)); [ring |].
    rewrite Hroot. rewrite <- HA. ring. }
  unfold ab, ULS.alpha_bal in Hm.
  assert (He : fyd * eps_cu3 = eps_cu3 * Es * eps_yd).
  { apply (Rmult_eq_reg_r (/ (eps_cu3 + eps_yd))); [| apply Rinv_neq_0_compat; lra].
    transitivity (fyd * (eps_cu3 / (eps_cu3 + eps_yd))); [unfold Rdiv; ring |].
    rewrite Hm. field. lra. }
  apply (Rmult_eq_reg_l (eps_cu3 * Es)); [| nra].
  rewrite <- He. field. lra.
Qed.

Hypothesis yield_strain : eps_yd = fyd / Es.

(** Around the balanced area the factor moves by at most the relative change
    of the area. *)
Lemma alpha_near_balance (As : R) :
  Rabs (ULS.calculate_alpha eps_cu3 eps_yd As Es fcd width d fyd lambda_factor netta - ab)
    * As_bal
  <= Rabs (As - As_bal).
Proof.
  pose proof (zone_force_pos fcd width d lambda_factor netta
                fcd_pos width_pos d_pos lambda_pos netta_pos) as Ha.
  pose proof (alpha_bal_in_unit_interval eps_cu3 eps_yd eps_cu3_pos eps_yd_pos) as [Hb0 Hb1].
  pose proof balanced_area_pos as HAs.
  fold a in Ha. fold ab in Hb0, Hb1.
  assert (HA : As_bal * fyd = a * ab).
  { unfold As_bal. rewrite As_balanced_eq by assumption. fold a ab. field. lra. }
  destruct (Rle_dec As As_bal) as [Hle | Hgt].
  - rewrite (calculate_alpha_under eps_cu3 eps_yd Es fcd width d fyd lambda_factor netta)
      by assumption.
    fold a.
    assert (Hd : fyd * As / a - ab = (As - As_bal) * (ab / As_bal)).
    { replace ab with (As_bal * fyd / a) at 1 by (rewrite HA; field; lra).
      replace (ab / As_bal) with (fyd / a).
      - field. lra.
      - apply (Rmult_eq_reg_r (a * As_bal)); [| nra].
        transitivity (fyd * As_bal); [field; lra |].
        transitivity (ab * a); [lra | field; lra]. }
    rewrite Hd.
    rewrite Rabs_left1, (Rabs_left1 (As - As_bal)) by
      first [lra | apply Rle_trans with ((As - As_bal) * 0); [| lra];
             apply Rmult_le_compat_neg_l; [lra | apply Rlt_le, Rdiv_lt_0_compat; lra]].
    replace (- ((As - As_bal) * (ab / As_bal)) * As_bal) with ((As_bal - As) * ab)
      by (field; lra).
    nra.
  - assert (Hlt : As_bal < As) by lra.
    rewrite (calculate_alpha_over eps_cu3 eps_yd Es fcd width d fyd lambda_factor netta)
      by assumption.
    fold a.
    assert (Hk : 0 < eps_cu3 * Es) by (apply Rmult_lt_0_compat; assumption).
    assert (Hb : 0 < eps_cu3 * Es * As) by (apply Rmult_lt_0_compat; lra).
    pose proof (root_plus_solves fcd width d lambda_factor netta
                  fcd_pos width_pos d_pos lambda_pos netta_pos _ Hb) as Hroot.
    pose proof (root_plus_in_unit_interval a _ Ha Hb) as [Hx0 Hx1].
    pose proof (balance_equation eps_cu3 eps_yd Es fcd width d fyd lambda_factor netta
                  eps_cu3_pos Es_pos fcd_pos width_pos d_pos fyd_pos lambda_pos netta_pos
                  yield_strain) as Hbal.
    fold a in Hroot, Hbal. fold ab As_bal in Hbal.
    set (x := ULS.root_plus a (eps_cu3 * Es * As) (- (eps_cu3 * Es * As))) in *.
    set (k := eps_cu3 * Es) in *.
    clearbody x k a ab As_bal.
    assert (Hkey : (x - ab) * (a * (x + ab) + k * As) = k * (As - As_bal) * (1 - ab))
      by nra.
    assert (Hpos : 0 < a * (x + ab) + k * As) by nra.
    assert (Hge : 0 <= x - ab).
    { destruct (Rle_dec 0 (x - ab)) as [H | H]; [exact H | exfalso].
      assert (Hn : x - ab < 0) by lra.
      assert (0 < k * (As - As_bal) * (1 - ab)).
      { apply Rmult_lt_0_compat; [apply Rmult_lt_0_compat |]; lra. }
      nra. }
    rewrite Rabs_pos_eq, (Rabs_pos_eq (As - As_bal)) by lra.
    assert (H1 : (x - ab) * (k * As) <= k * (As - As_bal)).
    { assert (Hq : 0 <= (x - ab) * (a * (x + ab))).
      { apply Rmult_le_pos; [exact Hge |]. apply Rmult_le_pos; lra. }
      assert (Hr : 0 <= k * (As - As_bal) * ab).
      { apply Rmult_le_pos; [apply Rmult_le_pos |]; lra. }
      lra. }
    assert (H2 : (x - ab) * As <= As - As_bal).
    { apply (Rmult_le_reg_l k); [exact Hk |]. lra. }
    nra.
Qed.

End Balance_point.

Section Balance_statement.

Open Scope R_scope.

(** C4: the solver takes the closed form up to the balanced area and the
    larger root of the quadratic above it.  In exact arithmetic and for
    positive inputs the balanced area is positive, the closed form gives
    the balanced factor [eps_cu3 / (eps_cu3 + eps_yd)] there, and the
    larger root gives it exactly when the yield strain is [fyd / Es], as
    the material computes it; with that yield strain the factor is
    continuous in the area at the balanced area. *)
Theorem alpha_continuous_at_balance
    (eps_cu3 eps_yd Es fcd width d fyd lambda_factor netta : R) :
  0 < eps_cu3 -> 0 < eps_yd -> 0 < Es -> 0 < fcd -> 0 < width -> 0 < d -> 0 < fyd ->
  0 < lambda_factor -> 0 < netta ->
  let As_bal := ULS.As_balanced eps_cu3 eps_yd fcd width d fyd lambda_factor netta in
  let alpha := fun As =>
    ULS.calculate_alpha eps_cu3 eps_yd As Es fcd width d fyd lambda_factor netta in
  (forall As, As <= As_bal ->
     alpha As = ULS.alpha_under As fcd width d fyd lambda_factor netta) /\
  (forall As, As_bal < As ->
     let qa := lambda_factor * netta * fcd * width * d in
     let qb := eps_cu3 * Es * As in
     let qc := - eps_cu3 * Es * As in
     alpha As = ULS.root_plus qa qb qc /\
     ULS.root_minus qa qb qc <= ULS.root_plus qa qb qc) /\
  0 < As_bal /\
  ULS.alpha_under As_bal fcd width d fyd lambda_factor netta
  = eps_cu3 / (eps_cu3 + eps_yd) /\
  (ULS.alpha_over eps_cu3 As_bal Es fcd width d lambda_factor netta
   = eps_cu3 / (eps_cu3 + eps_yd) <-> eps_yd = fyd / Es) /\
  (eps_yd = fyd / Es ->
     alpha As_bal = eps_cu3 / (eps_cu3 + eps_yd) /\ continuity_pt alpha As_bal).
Proof.
  intros H1 Hy H2 H3 H4 H5 H6 H7 H8 As_bal alpha.
  assert (Ha : 0 < lambda_factor * netta * fcd * width * d)
    by (apply zone_force_pos; assumption).
  pose proof (balanced_area_pos eps_cu3 eps_yd fcd width d fyd lambda_factor netta
                H1 Hy H3 H4 H5 H6 H7 H8) as HAs.
  fold As_bal in HAs.
  assert (Hunder : alpha As_bal = ULS.alpha_bal eps_cu3 eps_yd).
  { unfold alpha, ULS.calculate_alpha. fold As_bal.
    destruct (Rle_dec As_bal As_bal); [| lra].
    apply alpha_under_at_balance; assumption. }
  split; [| split; [| split; [| split; [| split]]]].
  - intros As Hle. unfold alpha, ULS.calculate_alpha. fold As_bal.
    destruct (Rle_dec As As_bal); [reflexivity | contradiction].
  - intros As Hlt qa qb qc. split.
    + unfold alpha, ULS.calculate_alpha. fold As_bal.
      destruct (Rle_dec As As_bal); [lra |].
      unfold ULS.alpha_over. apply larger_root_is_plus. exact Ha.
    + apply root_minus_le_plus. exact Ha.
  - exact HAs.
  - apply alpha_under_at_balance; assumption.
  - split.
    + apply alpha_over_at_balance_only; assumption.
    + intro Hyd. apply alpha_over_at_balance; assumption.
  - intro Hyd. split; [exact Hunder |].
    intros eps Heps.
    exists (eps * As_bal). split; [apply Rmult_gt_0_compat; lra |].
    intros As [_ Hdist].
    simpl in Hdist |- *. unfold R_dist in *.
    rewrite Hunder.
    pose proof (alpha_near_balance eps_cu3 eps_yd Es fcd width d fyd lambda_factor netta
                  H1 Hy H2 H3 H4 H5 H6 H7 H8 Hyd As) as Hl.
    fold As_bal in Hl. fold (alpha As) in Hl.
    apply (Rmult_lt_reg_r As_bal); [exact HAs |]. lra.
Qed.

(** C30 concrete, B500 steel, a 300 mm wide section with d = 750 mm. *)
Lemma alpha_continuous_at_balance_witness :
  let As_bal := ULS.As_balanced 0.0035 (500 / 1.15 / 200000) 17 300 750 (500 / 1.15) 0.8 1 in
  ULS.alpha_over 0.0035 As_bal 200000 17 300 750 0.8 1
  = 0.0035 / (0.0035 + 500 / 1.15 / 200000) /\
  continuity_pt
    (fun As => ULS.calculate_alpha 0.0035 (500 / 1.15 / 200000) As 200000 17 300 750
                 (500 / 1.15) 0.8 1) As_bal.
Proof.
  pose proof (alpha_continuous_at_balance
                0.0035 (500 / 1.15 / 200000) 200000 17 300 750 (500 / 1.15) 0.8 1
                ltac:(lra) ltac:(lra) ltac:(lra) ltac:(lra) ltac:(lra) ltac:(lra)
                ltac:(lra) ltac:(lra) ltac:(lra)) as H.
  cbv zeta in H. destruct H as [_ [_ [_ [_ [Hiff Hc]]]]].
  split.
  - apply (proj2 Hiff). reflexivity.
  - apply Hc. reflexivity.
Defined.

End Balance_statement.

Section Balance_binary64.

Open Scope float_scope.

(** C4, as stated, fails on binary64.  At the default section (C30, B500,
    300 mm wide, d = 750 mm) and with the area set to the balanced area
    the solver computes, the closed form, which the solver takes there,
    gives 0.6168582375478926 and the larger root of the quadratic gives
    0.61685823754789271, one step above. *)
Lemma balance_formulas_differ_in_binary64 :
  exists As_balanced : float,
    As_balanced
    = ULS_binary64.As_balanced (3.5 / 1000) (500 / 1.15 / 200000) (30 * 0.85 / 1.5)
        300 750 (500 / 1.15) 0.8 1 /\
    ULS_binary64.calculate_alpha (3.5 / 1000) (500 / 1.15 / 200000) As_balanced 200000
      (30 * 0.85 / 1.5) 300 750 (500 / 1.15) 0.8 1
    = Returns 0.6168582375478926 /\
    ULS_binary64.alpha_under As_balanced (30 * 0.85 / 1.5) 300 750 (500 / 1.15) 0.8 1
    = 0.6168582375478926 /\
    ULS_binary64.alpha_over (3.5 / 1000) As_balanced 200000 (30 * 0.85 / 1.5) 300 750 0.8 1
    = 0.61685823754789271 /\
    (0.6168582375478926 <? 0.61685823754789271) = true.
Proof.
  eexists. split; [reflexivity |].
  repeat split; vm_compute; reflexivity.
Qed.

End Balance_binary64.

Section Ordinary_consequences.

Open Scope R_scope.



(** The part of the moment capacity that depends on [alpha]. *)
Lemma calculate_M_Rd_eq (alpha fcd width d lambda_factor netta : R) :
  ULS.calculate_M_Rd alpha fcd width d lambda_factor netta
  = lambda_factor * netta * fcd * width * d
    * (alpha * ((1 - 0.5 * lambda_factor * alpha) * d)) / 10 ^ 6.
Proof. unfold ULS.calculate_M_Rd. field. Qed.

(** X22: with [lambda <= 1], as the material gives it, the moment capacity
    is strictly increasing in the compression-zone factor on (0, 1], and
    the capacity of the solved section with a positive reinforcement area
    is strictly positive. *)
Theorem moment_capacity_positive_and_increasing
    (eps_cu3 eps_yd Es fcd width d fyd lambda_factor netta As : R) :
  0 < eps_cu3 -> 0 < eps_yd -> 0 < Es -> 0 < fcd -> 0 < width -> 0 < d -> 0 < fyd ->
  0 < lambda_factor -> lambda_factor <= 1 -> 0 < netta -> 0 < As ->
  (forall alpha1 alpha2, 0 <= alpha1 -> alpha1 < alpha2 -> alpha2 <= 1 ->
     ULS.calculate_M_Rd alpha1 fcd width d lambda_factor netta
     < ULS.calculate_M_Rd alpha2 fcd width d lambda_factor netta) /\
  0 < ULS.calculate_M_Rd
        (ULS.calculate_alpha eps_cu3 eps_yd As Es fcd width d fyd lambda_factor netta)
        fcd width d lambda_factor netta.
Proof.
  intros H1 Hyd H2 H3 H4 H5 H6 H7 H7' H8 HAs.
  pose proof (zone_force_pos fcd width d lambda_factor netta H3 H4 H5 H7 H8) as Ha.
  assert (Hmono : forall alpha1 alpha2, 0 <= alpha1 -> alpha1 < alpha2 -> alpha2 <= 1 ->
            ULS.calculate_M_Rd alpha1 fcd width d lambda_factor netta
            < ULS.calculate_M_Rd alpha2 fcd width d lambda_factor netta).
  { intros a1 a2 Ha1 H12 Ha2. rewrite !calculate_M_Rd_eq.
    set (K := lambda_factor * netta * fcd * width * d) in *. clearbody K.
    apply Rmult_lt_compat_r; [apply Rinv_0_lt_compat; lra |].
    apply Rmult_lt_compat_l; [exact Ha |].
    assert (Hg : 0 < (a2 - a1) * (1 - 0.5 * lambda_factor * (a1 + a2))).
    { apply Rmult_lt_0_compat; [lra |].
      assert (lambda_factor * (a1 + a2) < 2) by nra. lra. }
    assert (Hd : 0 < (a2 - a1) * (1 - 0.5 * lambda_factor * (a1 + a2)) * d)
      by (apply Rmult_lt_0_compat; assumption).
    nra. }
  split; [exact Hmono |].
  assert (Hr : 0 < ULS.calculate_alpha eps_cu3 eps_yd As Es fcd width d fyd
                     lambda_factor netta < 1).
  { unfold ULS.calculate_alpha.
    destruct (Rle_dec As (ULS.As_balanced eps_cu3 eps_yd fcd width d fyd lambda_factor netta)).
    - apply alpha_under_in_unit_interval with (eps_cu3 := eps_cu3) (eps_yd := eps_yd);
        assumption.
    - apply alpha_over_in_unit_interval; assumption. }
  assert (H0 : ULS.calculate_M_Rd 0 fcd width d lambda_factor netta = 0).
  { rewrite calculate_M_Rd_eq. field. }
  rewrite <- H0. apply Hmono; lra.
Qed.

Lemma moment_capacity_positive_and_increasing_witness :
  (forall alpha1 alpha2, 0 <= alpha1 -> alpha1 < alpha2 -> alpha2 <= 1 ->
     ULS.calculate_M_Rd alpha1 17 300 750 0.8 1
     < ULS.calculate_M_Rd alpha2 17 300 750 0.8 1) /\
  0 < ULS.calculate_M_Rd
        (ULS.calculate_alpha 0.0035 (500 / 1.15 / 200000) 1256 200000 17 300 750
           (500 / 1.15) 0.8 1)
        17 300 750 0.8 1.
Proof.
  apply (moment_capacity_positive_and_increasing 0.0035 (500 / 1.15 / 200000) 200000
           17 300 750 (500 / 1.15) 0.8 1 1256); lra.
Defined.



End Ordinary_consequences.

(** ** The shear coefficient of the prestressed solver *)

Section Shear_coefficient.

Import ULS_prestress_and_ordinary.
Open Scope R_scope.

(** X24: with a positive concrete area, design strength and prestress
    factor and a loss below 100 %, the axial stress used in the shear
    control lies between 0 and [0.2 * fcd]; so with a prestress force the
    coefficient is [1 + sigma_cp / fcd], between 1 and 1.2, the branch
    returning 1.25 is never reached, and without prestress force the
    coefficient is 2.5. *)
Theorem shear_coefficient_regimes (Ac fcd P0 gamma_prestress loss : R) :
  0 < Ac -> 0 < fcd -> 0 < gamma_prestress -> loss < 100 ->
  let s := sigma_cp Ac fcd P0 gamma_prestress loss in
  0 <= s <= 0.2 * fcd /\
  alpha_cw s fcd <> 1.25 /\
  (P0 <> 0 -> alpha_cw s fcd = 1 + s / fcd /\ 1 < alpha_cw s fcd <= 1.2) /\
  (P0 = 0 -> alpha_cw s fcd = 2.5).
Proof.
  intros HAc Hf Hg Hl s.
  assert (HN : 0 <= Rabs P0 * gamma_prestress * (1 - loss / 100)).
  { apply Rmult_le_pos; [apply Rmult_le_pos; [apply Rabs_pos | lra] | lra]. }
  assert (Hs : 0 <= s <= 0.2 * fcd).
  { subst s. unfold sigma_cp. split; [| apply Rmin_r].
    apply Rmin_glb; [| lra].
    apply Rmult_le_pos; [exact HN | apply Rlt_le, Rinv_0_lt_compat; exact HAc]. }
  assert (Hpos : 0 < s -> alpha_cw s fcd = 1 + s / fcd /\ 1 < alpha_cw s fcd <= 1.2).
  { intro H0. unfold alpha_cw, lt_le.
    destruct (Rlt_dec 0 s); [| contradiction].
    destruct (Rle_dec s (0.25 * fcd)); [| exfalso; lra].
    split; [reflexivity |].
    assert (0 < s / fcd) by (apply Rdiv_lt_0_compat; assumption).
    assert (s / fcd <= 0.2).
    { apply (Rmult_le_reg_r fcd); [exact Hf |].
      unfold Rdiv. rewrite Rmult_assoc, Rinv_l by lra. lra. }
    lra. }
  assert (Hzero : s = 0 -> alpha_cw s fcd = 2.5).
  { intro H0. rewrite H0. unfold alpha_cw, lt_le.
    destruct (Rlt_dec 0 0); [exfalso; lra |].
    destruct (Rlt_dec 0.25 0); [exfalso; lra |].
    unfold Rdiv. rewrite Rmult_0_l. lra. }
  split; [exact Hs |]. split; [| split].
  - destruct (Req_dec s 0) as [E | E].
    + rewrite (Hzero E). lra.
    + destruct Hpos as [_ [H1 H2]]; [lra | lra].
  - intro HP. apply Hpos. subst s. unfold sigma_cp.
    apply Rmin_glb_lt; [| lra].
    apply Rdiv_lt_0_compat; [| exact HAc].
    apply Rmult_lt_0_compat; [apply Rmult_lt_0_compat; [apply Rabs_pos_lt; exact HP | exact Hg] | lra].
  - intro HP. apply Hzero. subst s. unfold sigma_cp. rewrite HP, Rabs_R0.
    unfold Rdiv. rewrite !Rmult_0_l. apply Rmin_left. lra.
Qed.

Lemma shear_coefficient_regimes_witness :
  let s := sigma_cp 240000 17 840000 1.15 15 in
  0 <= s <= 0.2 * 17 /\
  alpha_cw s 17 <> 1.25 /\
  (840000 <> 0 -> alpha_cw s 17 = 1 + s / 17 /\ 1 < alpha_cw s 17 <= 1.2) /\
  (840000 = 0 -> alpha_cw s 17 = 2.5).
Proof.
  apply (shear_coefficient_regimes 240000 17 840000 1.15 15); lra.
Defined.

End Shear_coefficient.

(** ** Creep: development in time and cement class *)

Section Creep_extra.

Import Creep_number.
Open Scope R_scope.
Open Scope string_scope.

Lemma float_pow_lt (x1 x2 y : R) :
  0 < y -> 0 < x1 -> x1 < x2 -> float_pow x1 y < float_pow x2 y.
Proof.
  intros Hy H1 H12. unfold float_pow.
  destruct (Rlt_dec 0 x1); [| contradiction].
  destruct (Rlt_dec 0 x2); [| exfalso; lra].
  apply Rlt_Rpower_l; [exact Hy | split; assumption].
Qed.

Lemma float_pow_one (y : R) : float_pow 1 y = 1.
Proof.
  unfold float_pow. destruct (Rlt_dec 0 1); [| exfalso; lra].
  unfold Rpower. rewrite ln_1, Rmult_0_r. apply exp_0.
Qed.

(** The share of the elapsed time in the argument of the power. *)
Lemma time_share_range (bH t t0 t0' : R) :
  0 < bH -> t0 < t0' -> t0' < t ->
  0 < (t - t0') / (bH + t - t0') /\
  (t - t0') / (bH + t - t0') < (t - t0) / (bH + t - t0) /\
  (t - t0) / (bH + t - t0) < 1.
Proof.
  intros Hb H01 Ht. split; [apply Rdiv_lt_0_compat; lra |]. split.
  - apply (Rmult_lt_reg_r ((bH + t - t0') * (bH + t - t0)));
      [apply Rmult_lt_0_compat; lra |].
    replace ((t - t0') / (bH + t - t0') * ((bH + t - t0') * (bH + t - t0)))
      with ((t - t0') * (bH + t - t0)) by (field; lra).
    replace ((t - t0) / (bH + t - t0) * ((bH + t - t0') * (bH + t - t0)))
      with ((t - t0) * (bH + t - t0')) by (field; lra).
    nra.
  - apply (Rmult_lt_reg_r (bH + t - t0)); [lra |].
    unfold Rdiv. rewrite Rmult_assoc, Rinv_l by lra. lra.
Qed.

Lemma calculate_beta_c_decreasing (t0 t0' t RH h0 fcm : R) :
  0 <= RH -> 0 < h0 -> 0 < fcm -> t0 < t0' -> t0' < t ->
  0 < calculate_beta_c t0' t RH h0 fcm /\
  calculate_beta_c t0' t RH h0 fcm < calculate_beta_c t0 t RH h0 fcm /\
  calculate_beta_c t0 t RH h0 fcm < 1.
Proof.
  intros HRH Hh Hf H01 Ht. rewrite !calculate_beta_c_eq.
  pose proof (beta_H_pos RH h0 fcm HRH Hh Hf) as Hb.
  destruct (time_share_range (beta_H RH h0 fcm) t t0 t0' Hb H01 Ht) as [H1 [H2 H3]].
  split; [apply float_pow_pos; exact H1 |]. split.
  - apply float_pow_lt; [lra | exact H1 | exact H2].
  - rewrite <- (float_pow_one 0.3). apply float_pow_lt; lra.
Qed.

(** X25: the time-development factor lies strictly between 0 and 1 and is
    strictly smaller for a later loading age, for every loading age before
    the considered time. *)
Theorem beta_c_range_and_monotone (t0 t0' t RH h0 fcm : R) :
  0 <= RH -> 0 < h0 -> 0 < fcm -> t0 < t0' -> t0' < t ->
  0 < calculate_beta_c t0' t RH h0 fcm /\
  calculate_beta_c t0' t RH h0 fcm < calculate_beta_c t0 t RH h0 fcm /\
  calculate_beta_c t0 t RH h0 fcm < 1.
Proof. exact (calculate_beta_c_decreasing t0 t0' t RH h0 fcm). Qed.

Lemma beta_c_range_and_monotone_witness :
  0 < calculate_beta_c 90 18263 40 (calculate_h0 240000 300 800) 38 /\
  calculate_beta_c 90 18263 40 (calculate_h0 240000 300 800) 38
  < calculate_beta_c 7 18263 40 (calculate_h0 240000 300 800) 38 /\
  calculate_beta_c 7 18263 40 (calculate_h0 240000 300 800) 38 < 1.
Proof.
  apply (beta_c_range_and_monotone 7 90 18263 40 (calculate_h0 240000 300 800) 38);
    try lra.
  apply calculate_h0_pos; lra.
Defined.

(** X26: with the self load applied at a non-negative age and the live
    load after it, for a positive section and mean strength, a relative
    humidity between 0 and 100 and a recognized cement class, both creep
    numbers the class computes are positive and below their standardized
    creep numbers, and the live-load creep number is strictly larger than
    the product of its standardized creep number with the time-development
    factor of the live-load age: sharing the factor of the self-load age
    errs on the high side. *)
Theorem creep_numbers_bounded
    (Ac width height fcm t0_self t0_live RH : R) (cement_class : string) (t : R) :
  0 < Ac -> 0 < width -> 0 < height -> 0 < fcm -> 0 <= RH <= 100 ->
  0 <= t0_self -> t0_self < t0_live -> t0_live < t ->
  In cement_class ["S"; "N"; "R"] ->
  exists c,
    init Ac width height fcm t0_self t0_live RH cement_class t = Returns c /\
    0 < phi_selfload c < phi_0_self c /\
    0 < phi_liveload c < phi_0_live c /\
    phi_0_live c * calculate_beta_c t0_live t RH (h0 c) fcm < phi_liveload c.
Proof.
  intros HAc Hw Hh Hf [HRH0 HRH1] _ Hsl Hlt Hc.
  destruct (calculate_t0_adjusted_returns t0_self cement_class Hc) as [ts [Es Hts_pos]].
  destruct (calculate_t0_adjusted_returns t0_live cement_class Hc) as [tl [El Htl_pos]].
  unfold init. rewrite Es, El. cbn [bind].
  eexists. split; [reflexivity |].
  cbn [phi_selfload phi_liveload phi_0_self phi_0_live h0].
  unfold calcualte_phi.
  pose proof (calculate_h0_pos Ac width height HAc Hw Hh) as Hh0.
  set (h := calculate_h0 Ac width height) in *.
  assert (Hphi : forall ta, 0 < ta ->
            0 < calculate_phi_0 (calculate_phi_RH h fcm RH)
                  (calculate_beta_fcm fcm) (calculate_beta_t0 ta)).
  { intros ta Hta. unfold calculate_phi_0.
    apply Rmult_lt_0_compat; [apply Rmult_lt_0_compat |].
    - apply calculate_phi_RH_pos; assumption.
    - apply calculate_beta_fcm_pos; assumption.
    - apply calculate_beta_t0_pos; assumption. }
  pose proof (Hphi ts Hts_pos) as Hps. pose proof (Hphi tl Htl_pos) as Hpl.
  destruct (calculate_beta_c_decreasing t0_self t0_live t RH h fcm)
    as [Hb0 [Hb1 Hb2]]; try assumption.
  set (ps := calculate_phi_0 _ _ (calculate_beta_t0 ts)) in *.
  set (pl := calculate_phi_0 _ _ (calculate_beta_t0 tl)) in *.
  set (bs := calculate_beta_c t0_self t RH h fcm) in *.
  set (bl := calculate_beta_c t0_live t RH h fcm) in *.
  clearbody ps pl bs bl.
  repeat split; nra.
Qed.

Lemma creep_numbers_bounded_witness :
  exists c,
    init 240000 300 800 38 7 90 40 "R" 18263 = Returns c /\
    0 < phi_selfload c < phi_0_self c /\
    0 < phi_liveload c < phi_0_live c /\
    phi_0_live c * calculate_beta_c 90 18263 40 (h0 c) 38 < phi_liveload c.
Proof.
  apply (creep_numbers_bounded 240000 300 800 38 7 90 40 "R" 18263);
    try lra; simpl; auto.
Defined.

(** X27: the loading age adjusted for the cement class is never below half
    a day; for a positive age it is the age itself (at least 0.5) for
    class N, at least the age for the rapid class R and at most the age
    (or 0.5) for the slow class S; any other class raises ValueError. *)
Theorem t0_adjusted_by_cement_class (t0 : R) :
  0 < t0 ->
  calculate_t0_adjusted t0 "N" = Returns (Rmax t0 0.5) /\
  (exists r, calculate_t0_adjusted t0 "R" = Returns r /\ t0 <= r /\ 0.5 <= r) /\
  (exists s, calculate_t0_adjusted t0 "S" = Returns s /\ s <= Rmax t0 0.5 /\ 0.5 <= s) /\
  (forall cement_class, ~ In cement_class ["S"; "N"; "R"] ->
     calculate_t0_adjusted t0 cement_class = Raises ValueError).
Proof.
  intro Ht.
  pose proof (float_pow_pos t0 1.2 Ht) as Hp.
  assert (Hf : 1 < 9 / (2 + float_pow t0 1.2) + 1).
  { assert (0 < 9 / (2 + float_pow t0 1.2)) by (apply Rdiv_lt_0_compat; lra). lra. }
  set (f := 9 / (2 + float_pow t0 1.2) + 1) in *.
  split; [| split; [| split]].
  - unfold calculate_t0_adjusted. cbn [String.eqb Ascii.eqb Bool.eqb bind].
    fold f. f_equal. f_equal. simpl. ring.
  - eexists. split; [unfold calculate_t0_adjusted; cbn [String.eqb Ascii.eqb Bool.eqb bind];
                     reflexivity |].
    fold f. split; [| apply Rmax_r].
    apply Rle_trans with (t0 * powerRZ f 1); [| apply Rmax_l].
    simpl. nra.
  - eexists. split; [unfold calculate_t0_adjusted; cbn [String.eqb Ascii.eqb Bool.eqb bind];
                     reflexivity |].
    fold f. split; [| apply Rmax_r].
    apply Rmax_lub; [| apply Rmax_r].
    apply Rle_trans with t0; [| apply Rmax_l].
    simpl. rewrite Rmult_1_r.
    assert (Hi : / f < 1).
    { rewrite <- Rinv_1. apply Rinv_lt_contravar; lra. }
    assert (0 < / f) by (apply Rinv_0_lt_compat; lra).
    nra.
  - intros cement_class Hn. unfold calculate_t0_adjusted.
    destruct (String.eqb cement_class "S") eqn:E1;
      [apply String.eqb_eq in E1; exfalso; apply Hn; subst; simpl; auto |].
    destruct (String.eqb cement_class "N") eqn:E2;
      [apply String.eqb_eq in E2; exfalso; apply Hn; subst; simpl; auto |].
    destruct (String.eqb cement_class "R") eqn:E3;
      [apply String.eqb_eq in E3; exfalso; apply Hn; subst; simpl; auto |].
    reflexivity.
Qed.

Lemma t0_adjusted_by_cement_class_witness :
  calculate_t0_adjusted 7 "N" = Returns (Rmax 7 0.5).
Proof.
  refine (proj1 (t0_adjusted_by_cement_class 7 _)). lra.
Defined.

End Creep_extra.

(** ** Geometry of the cross section *)

Section Geometry.

Import Cross_section.
Open Scope Q_scope.
Open Scope string_scope.




End Geometry.

(** ** Reinforcement control *)

Section Reinforcement_limits.

Import Reinforcement_control.
Open Scope R_scope.

(** X29: for a yield strength other than zero and a non-negative [fck],
    the reinforcement control passes exactly when the area is at
    least the necessary area and both minimum areas
    ([0.26 * fctm / fyk * width * d] and [0.0013 * width * d]) and at most
    4 % of the concrete area, all bounds included; the shear control
    passes exactly when the provided stirrup area strictly exceeds
    [0.1 * sqrt fck / fyk * width]. *)
Theorem reinforcement_control_limits
    (As As_necessary fctm fyk width d Ac fck Asw : R) :
  fyk <> 0 -> 0 <= fck ->
  (control_reinforcement As As_necessary (calculate_As_max Ac)
     (calculate_As_min fctm fyk width d) = true
   <-> As_necessary <= As /\ 0.26 * (fctm / fyk) * width * d <= As /\
       0.0013 * width * d <= As /\ As <= 0.04 * Ac) /\
  (control_reinforcement_shear fck fyk width Asw = true
   <-> 0.1 * sqrt fck / fyk * width < Asw).
Proof.
  intros _ _. split.
  - unfold control_reinforcement, calculate_As_max, calculate_As_min.
    pose proof (Rmax_l (0.26 * (fctm / fyk) * width * d) (0.0013 * width * d)) as Hl.
    pose proof (Rmax_r (0.26 * (fctm / fyk) * width * d) (0.0013 * width * d)) as Hr.
    destruct (Rgt_dec As (0.04 * Ac)) as [H1 | H1];
      [split; [discriminate | intros [_ [_ [_ H]]]; exfalso; lra] |].
    destruct (Rlt_dec As (Rmax (0.26 * (fctm / fyk) * width * d) (0.0013 * width * d)))
      as [H2 | H2].
    { split; [discriminate |]. intros [_ [Ha [Hb _]]]. exfalso.
      assert (Rmax (0.26 * (fctm / fyk) * width * d) (0.0013 * width * d) <= As)
        by (apply Rmax_lub; assumption).
      lra. }
    destruct (Rlt_dec As As_necessary) as [H3 | H3];
      [split; [discriminate | intros [H _]; exfalso; lra] |].
    split; [intros _ | reflexivity]. repeat split; lra.
  - unfold control_reinforcement_shear, Asw_min.
    rewrite sin_PI2, Rmult_1_r.
    destruct (Rlt_dec (0.1 * sqrt fck / fyk * width) Asw); split;
      intro H; try reflexivity; try assumption; try discriminate; contradiction.
Qed.

(** B500 steel and C25 concrete in a 300 x 550 mm section: 1257 mm2 lies
    between the minimum of about 223 mm2 and the maximum of 6600 mm2. *)
Lemma reinforcement_control_limits_witness :
  control_reinforcement 1257 900 (calculate_As_max 165000)
    (calculate_As_min 2.6 500 300 550) = true.
Proof.
  apply (proj1 (reinforcement_control_limits 1257 900 2.6 500 300 550 165000 25 0
                  ltac:(lra) ltac:(lra))).
  repeat split; lra.
Defined.

End Reinforcement_limits.
